(** * update_website.py: section parsers, image mirror and paragraph reflow

    A shallow embedding of the pure part of [update_website.py] and of the
    decision logic of its image mirror, with the properties the
    specification states about them.

    Conventions.
    - A Python [str] is a Rocq [string]; each character stands for the code
      point of the same number (the range 0..255).
    - A value read from a CSV row is a [str] or [None]: [csv.DictReader]
      (line 20 of the source) fills the cells a short line lacks with [None].
    - A [dict] is a [gmap]; a call that may raise returns a [result].
    - The image mirror works on the outside: it is given a [World] and gives
      it back, with the value it returns or the [OSError] it raises. *)

From Stdlib Require Import String Ascii List Lia Bool Arith.
From stdpp Require Import gmap strings list.
Import ListNotations.
Open Scope string_scope.
Open Scope list_scope.

(** ** Python string primitives *)

Module Py.

(** [s[n:]] *)
Fixpoint drop (n : nat) (s : string) : string :=
  match n, s with
  | O, _ => s
  | S _, EmptyString => EmptyString
  | S n', String _ s' => drop n' s'
  end.

(** [s.startswith(p)] *)
Fixpoint startswith (p s : string) : bool :=
  match p, s with
  | EmptyString, _ => true
  | String _ _, EmptyString => false
  | String a p', String b s' => Ascii.eqb a b && startswith p' s'
  end.

(** [s.endswith(p)]: [p] is [s] itself or ends the tail of [s]. *)
Fixpoint endswith (p s : string) : bool :=
  String.eqb s p ||
  match s with
  | EmptyString => false
  | String _ s' => endswith p s'
  end.

(** [sub in s] *)
Fixpoint contains (sub s : string) : bool :=
  startswith sub s ||
  match s with
  | EmptyString => false
  | String _ s' => contains sub s'
  end.

(** Puts a character in front of the first piece of a split. *)
Definition push (c : ascii) (l : list string) : list string :=
  match l with
  | [] => [String c EmptyString]
  | h :: t => String c h :: t
  end.

(** [s.split(sep)] for a non-empty [sep]: the pieces between the
    occurrences of [sep], found from the left and not overlapping.  Every
    call is on a shorter string, so [length s] steps are enough. *)
Fixpoint split_fuel (fuel : nat) (sep s : string) : list string :=
  match s with
  | EmptyString => [EmptyString]
  | String c s' =>
      match fuel with
      | O => [s]
      | S fuel' =>
          if startswith sep s
          then EmptyString :: split_fuel fuel' sep (drop (String.length sep) s)
          else push c (split_fuel fuel' sep s')
      end
  end.

Definition split (sep s : string) : list string :=
  split_fuel (String.length s) sep s.

(** [s.replace(old, new)] for a non-empty [old]: every occurrence of
    [old], found from the left and not overlapping, becomes [new]. *)
Fixpoint replace_fuel (fuel : nat) (old new s : string) : string :=
  match s with
  | EmptyString => EmptyString
  | String c s' =>
      match fuel with
      | O => s
      | S fuel' =>
          if startswith old s
          then new +:+ replace_fuel fuel' old new (drop (String.length old) s)
          else String c (replace_fuel fuel' old new s')
      end
  end.

Definition replace (old new s : string) : string :=
  replace_fuel (String.length s) old new s.

(** [sep.join(l)] *)
Fixpoint join (sep : string) (l : list string) : string :=
  match l with
  | [] => EmptyString
  | [x] => x
  | x :: rest => x +:+ sep +:+ join sep rest
  end.

(** [str.isspace] on one character, for the code points below 256. *)
Definition isspace (c : ascii) : bool :=
  match c with
  | "009" | "010" | "011" | "012" | "013"
  | "028" | "029" | "030" | "031" | " "
  | "133" | "160" => true
  | _ => false
  end%char.

(** [s.lstrip()] *)
Fixpoint lstrip (s : string) : string :=
  match s with
  | EmptyString => EmptyString
  | String c s' => if isspace c then lstrip s' else s
  end.

(** [s.rstrip()]: a character is dropped when it is white space and
    nothing is left behind it. *)
Fixpoint rstrip (s : string) : string :=
  match s with
  | EmptyString => EmptyString
  | String c s' =>
      match rstrip s' with
      | EmptyString => if isspace c then EmptyString else String c EmptyString
      | r => String c r
      end
  end.

(** [s.strip()] *)
Definition strip (s : string) : string := rstrip (lstrip s).

(** Truth value of a [str]: non-empty. *)
Definition nonempty (s : string) : bool :=
  match s with
  | EmptyString => false
  | String _ _ => true
  end.


(** [s[:n]] *)
Fixpoint take (n : nat) (s : string) : string :=
  match n, s with
  | O, _ => EmptyString
  | S _, EmptyString => EmptyString
  | S n', String c s' => String c (take n' s')
  end.

(** [s] without its last [length suf] characters: the name with the suffix
    stripped, for a name that ends in it. *)
Definition strip_suffix (suf s : string) : string :=
  take (String.length s - String.length suf) s.


End Py.

(** ** Values, exceptions and rows *)

(** What a cell of a row holds. *)
Inductive pyval : Type :=
  | PNone
  | PStr (s : string).

#[global] Instance pyval_eq_dec : EqDecision pyval.
Proof. solve_decision. Defined.

Definition pyval_to_option (v : pyval) : option string :=
  match v with PNone => None | PStr s => Some s end.

Definition pyval_of_option (o : option string) : pyval :=
  match o with None => PNone | Some s => PStr s end.

#[global] Instance pyval_countable : Countable pyval.
Proof.
  apply (inj_countable' pyval_to_option pyval_of_option).
  intros []; reflexivity.
Defined.

(** Truth value: [None] and the empty string are false. *)
Definition truthy (v : pyval) : bool :=
  match v with
  | PNone => false
  | PStr s => Py.nonempty s
  end.

(** The exceptions the parsers can meet. *)
Inductive exn : Type :=
  | AttributeError
  | KeyError.

Inductive result (A : Type) : Type :=
  | Ok (a : A)
  | Raise (e : exn).

Arguments Ok {A} a.
Arguments Raise {A} e.

#[global] Instance result_fmap : FMap result :=
  λ A B (f : A → B) (r : result A),
    match r with
    | Ok a => Ok (f a)
    | Raise e => Raise e
    end.

#[global] Instance result_bind : MBind result :=
  λ A B (k : A → result B) (r : result A),
    match r with
    | Ok a => k a
    | Raise e => Raise e
    end.

(** [for x in l: s = body(s, x)], stopping at the first exception. *)
Fixpoint for_each {S A : Type} (body : S → A → result S) (l : list A) (s : S)
  : result S :=
  match l with
  | [] => Ok s
  | x :: l' => s' ← body s x ; for_each body l' s'
  end.

(** One row of [csv.DictReader]: every header name maps to a [str] or to
    [None].  The surplus cells of a long line sit under the key [None],
    which no parser reads. *)
Abbreviation Row := (gmap string pyval).

(** The row [csv.DictReader] makes of the cells of one line: the names of
    the header paired with the cells in order, and [None] for the names
    that are left when the line is short. *)
Fixpoint pair_cells (fieldnames cells : list string) : list (string * pyval) :=
  match fieldnames, cells with
  | [], _ => []
  | name :: names, [] => (name, PNone) :: pair_cells names []
  | name :: names, c :: cells' => (name, PStr c) :: pair_cells names cells'
  end.

Definition dict_reader_row (fieldnames cells : list string) : Row :=
  fold_left (λ (d : Row) kv, <[kv.1 := kv.2]> d) (pair_cells fieldnames cells) ∅.

(** [row.get(k)] *)
Definition get (row : Row) (k : string) : pyval := default PNone (row !! k).

(** [row.get(k, d)]: [d] only when the key is absent. *)
Definition get_or (row : Row) (k : string) (d : pyval) : pyval :=
  default d (row !! k).

(** [row[k]] *)
Definition getitem (row : Row) (k : string) : result pyval :=
  match row !! k with
  | Some v => Ok v
  | None => Raise KeyError
  end.

(** Method calls: a [str] has the method, [None] has not. *)
Definition str_startswith (v : pyval) (p : string) : result bool :=
  match v with
  | PStr s => Ok (Py.startswith p s)
  | PNone => Raise AttributeError
  end.

Definition str_endswith (v : pyval) (p : string) : result bool :=
  match v with
  | PStr s => Ok (Py.endswith p s)
  | PNone => Raise AttributeError
  end.

Definition str_replace (v : pyval) (old new : string) : result string :=
  match v with
  | PStr s => Ok (Py.replace old new s)
  | PNone => Raise AttributeError
  end.

Definition str_split (v : pyval) (sep : string) : result (list string) :=
  match v with
  | PStr s => Ok (Py.split sep s)
  | PNone => Raise AttributeError
  end.

(** ** Section parsers *)

(** *** General info, hero, contact: flat maps *)

(** The body of the loop the three parsers share:
    [if row.get('field') and row.get('value'): d[row['field']] = row['value']]. *)
Definition field_value_row (d : gmap pyval pyval) (row : Row)
  : result (gmap pyval pyval) :=
  if truthy (get row "field") && truthy (get row "value") then
    k ← getitem row "field" ;
    v ← getitem row "value" ;
    Ok (<[k := v]> d)
  else Ok d.

Definition parse_general_info (data : list Row) : result (gmap pyval pyval) :=
  for_each field_value_row data ∅.

Definition parse_hero (data : list Row) : result (gmap pyval pyval) :=
  for_each field_value_row data ∅.

Definition parse_contact (data : list Row) : result (gmap pyval pyval) :=
  for_each field_value_row data ∅.

(** *** About *)

Record Stat : Type := mkStat {
  stat_key : string;
  stat_number : pyval;
  stat_label : pyval
}.

Record About : Type := mkAbout {
  about_title : pyval;
  about_paragraphs : list pyval;
  about_stats : list Stat
}.

#[global] Instance Stat_eq_dec : EqDecision Stat.
Proof. solve_decision. Defined.

(** [next((s for s in stats if s['key'] == k), None)], as the position of
    the stat found: the generator yields the object stored in the list, so
    an assignment to it changes the list at that position. *)
Fixpoint find_stat (k : string) (stats : list Stat) : option nat :=
  match stats with
  | [] => None
  | s :: rest =>
      if decide (stat_key s = k) then Some 0 else S <$> find_stat k rest
  end.

Definition set_number (v : pyval) (s : Stat) : Stat :=
  mkStat (stat_key s) v (stat_label s).

Definition set_label (v : pyval) (s : Stat) : Stat :=
  mkStat (stat_key s) (stat_number s) v.

(** The [_number] branch once the key is known. *)
Definition put_number (k : string) (v : pyval) (stats : list Stat) : list Stat :=
  match find_stat k stats with
  | None => stats ++ [mkStat k v (PStr "")]
  | Some i => alter (set_number v) i stats
  end.

(** The [_label] branch once the key is known. *)
Definition put_label (k : string) (v : pyval) (stats : list Stat) : list Stat :=
  match find_stat k stats with
  | None => stats ++ [mkStat k (PStr "") v]
  | Some i => alter (set_label v) i stats
  end.

(** The body of the loop of [parse_about]. *)
Definition about_row (about : About) (row : Row) : result About :=
  let field := get_or row "field" (PStr "") in
  let value := get_or row "value" (PStr "") in
  if decide (field = PStr "title") then
    Ok (mkAbout value (about_paragraphs about) (about_stats about))
  else
    is_paragraph ← str_startswith field "paragraph" ;
    if is_paragraph : bool then
      Ok (mkAbout (about_title about) (about_paragraphs about ++ [value])
                  (about_stats about))
    else
      is_number ← str_endswith field "_number" ;
      if is_number : bool then
        k ← str_replace field "_number" "" ;
        Ok (mkAbout (about_title about) (about_paragraphs about)
                    (put_number k value (about_stats about)))
      else
        is_label ← str_endswith field "_label" ;
        if is_label : bool then
          k ← str_replace field "_label" "" ;
          Ok (mkAbout (about_title about) (about_paragraphs about)
                      (put_label k value (about_stats about)))
        else Ok about.

Definition parse_about (data : list Row) : result About :=
  for_each about_row data (mkAbout (PStr "") [] []).

(** *** Core values and services *)

Record CoreValue : Type := mkCoreValue {
  cv_icon : pyval;
  cv_title : pyval;
  cv_description : pyval;
  cv_gradient : pyval
}.

(** The default icon, U+1F3AF, lies outside the range of the string model
    and stands here as the bytes of its UTF-8 encoding. *)
Definition default_icon : string := "🎯".

Definition default_gradient : string := "from-blue-500 to-cyan-500".

Definition core_value_row (values : list CoreValue) (row : Row)
  : result (list CoreValue) :=
  if truthy (get row "icon") && truthy (get row "title") then
    Ok (values ++ [mkCoreValue (get_or row "icon" (PStr default_icon))
                               (get_or row "title" (PStr ""))
                               (get_or row "description" (PStr ""))
                               (get_or row "gradient" (PStr default_gradient))])
  else Ok values.

Definition parse_core_values (data : list Row) : result (list CoreValue) :=
  for_each core_value_row data [].

Record Service : Type := mkService {
  svc_name : pyval;
  svc_link_id : pyval;
  svc_gradient : pyval
}.

Definition service_row (services : list Service) (row : Row)
  : result (list Service) :=
  if truthy (get row "name") then
    Ok (services ++ [mkService (get_or row "name" (PStr ""))
                               (get_or row "link_id" (PStr ""))
                               (get_or row "gradient" (PStr default_gradient))])
  else Ok services.

Definition parse_services (data : list Row) : result (list Service) :=
  for_each service_row data [].

(** *** Service details *)

Record ServiceDetail : Type := mkServiceDetail {
  sd_service_id : pyval;
  sd_title : pyval;
  sd_intro : pyval;
  sd_bullets_title : pyval;
  sd_bullets : list string;
  sd_closing : pyval;
  sd_bg_image : pyval;
  sd_image_position : pyval
}.

(** [[b.strip() for b in bullets if b.strip()]] *)
Definition strip_nonempty (pieces : list string) : list string :=
  List.map Py.strip
    (List.filter (λ b, Py.nonempty (Py.strip b)) pieces).

Definition service_detail_row (details : list ServiceDetail) (row : Row)
  : result (list ServiceDetail) :=
  if truthy (get row "service_id") then
    bullets ← (if truthy (get row "key_services")
               then str_split (get_or row "key_services" (PStr "")) "|"
               else Ok []);
    let bullets := strip_nonempty bullets in
    Ok (details ++ [mkServiceDetail
                      (get_or row "service_id" (PStr ""))
                      (get_or row "title" (PStr ""))
                      (get_or row "intro" (PStr ""))
                      (get_or row "bullets_title" (PStr "Key Services Include:"))
                      bullets
                      (get_or row "closing" (PStr ""))
                      (get_or row "bg_image" (PStr ""))
                      (get_or row "image_position" (PStr "right"))])
  else Ok details.

Definition parse_service_details (data : list Row)
  : result (list ServiceDetail) :=
  for_each service_detail_row data [].

(** ** Page renderer: paragraph reflow and the layout of a detail section *)

Definition nl : string := String "010"%char EmptyString.

Definition dq : string := String "034"%char EmptyString.

(** The markup of one paragraph. *)
Definition paragraph_html (css_class para : string) : string :=
  "                    <p class=" +:+ dq +:+ css_class +:+ dq +:+ ">" +:+ nl
  +:+ "                        " +:+ para +:+ nl
  +:+ "                    </p>".

(** The paragraphs [text_to_paragraphs] settles on for a non-empty text. *)
Definition paragraphs_of (text : string) : list string :=
  if Py.contains "||" text then
    strip_nonempty (Py.split "||" text)
  else
    let paragraphs := strip_nonempty (Py.split (nl +:+ nl) text) in
    if (length paragraphs <=? 1)%nat then
      let paragraphs := strip_nonempty (Py.split nl text) in
      if (length paragraphs <=? 1)%nat then [Py.strip text] else paragraphs
    else paragraphs.

Definition text_to_paragraphs (text : pyval) (css_class : string) : string :=
  match text with
  | PNone => ""
  | PStr t =>
      if Py.nonempty t then
        Py.join nl (List.map (paragraph_html css_class)
                             (List.filter Py.nonempty (paragraphs_of t)))
      else ""
  end.

(** The class [text_to_paragraphs] takes when the caller names none. *)
Definition default_css_class : string := "text-lg text-gray-200 mb-6".

Definition mask_to_right : string :=
  "linear-gradient(to right, rgba(0,0,0,1) 0%, rgba(0,0,0,0.8) 50%, rgba(0,0,0,0) 100%)".

Definition mask_to_left : string :=
  "linear-gradient(to left, rgba(0,0,0,1) 0%, rgba(0,0,0,0.8) 50%, rgba(0,0,0,0) 100%)".

Definition spacer_div : string :=
  "                <div class=" +:+ dq +:+ "hidden md:block" +:+ dq +:+ "></div>".

Definition grid_order_left : string :=
  "                <!-- Empty space for image on the left -->" +:+ nl
  +:+ spacer_div +:+ nl
  +:+ "                <!-- Text content on the right -->".

Definition grid_order_right : string :=
  "                <!-- Text content on the left -->".

(** [mask_gradient] and [grid_order] of [generate_service_detail_section]:
    the first branch for ['left'], the other for everything else. *)
Definition service_detail_layout (image_position : pyval) : string * string :=
  if decide (image_position = PStr "left")
  then (mask_to_right, grid_order_left)
  else (mask_to_left, grid_order_right).

(** The block [generate_service_detail_section] adds behind the text for
    ['right']. *)
Definition trailing_spacer (image_position : pyval) : string :=
  if decide (image_position = PStr "right")
  then nl +:+ "                <!-- Empty space for image on the right -->"
       +:+ nl +:+ spacer_div
  else "".

(** ** Image mirror *)

(** A pattern [lead([cls]+)]: a literal text, then one group of one or more
    characters of a class. *)
Record pattern : Type := mkPattern {
  lead : string;
  cls : ascii → bool
}.

(** The class [[a-zA-Z0-9_-]]. *)
Definition idchar (c : ascii) : bool :=
  let n := nat_of_ascii c in
  (((97 <=? n) && (n <=? 122)) || ((65 <=? n) && (n <=? 90))
   || ((48 <=? n) && (n <=? 57)) || (n =? 95) || (n =? 45))%nat.

Fixpoint take_while (f : ascii → bool) (s : string) : string :=
  match s with
  | EmptyString => EmptyString
  | String c s' => if f c then String c (take_while f s') else EmptyString
  end.

(** The match of a pattern at the very start of [s]: the group, as long as
    it can be. *)
Definition match_here (p : pattern) (s : string) : option string :=
  if Py.startswith (lead p) s then
    let g := take_while (cls p) (Py.drop (String.length (lead p)) s) in
    if Py.nonempty g then Some g else None
  else None.

(** [re.search(p, s)], giving [match.group(1)]: the leftmost match. *)
Fixpoint re_search (p : pattern) (s : string) : option string :=
  match match_here p s with
  | Some g => Some g
  | None =>
      match s with
      | EmptyString => None
      | String _ s' => re_search p s'
      end
  end.

Definition patterns : list pattern :=
  [ mkPattern "/d/" idchar;
    mkPattern "id=" idchar;
    mkPattern "/file/d/" idchar ].

(** The loop over the patterns: the group of the first one that matches. *)
Fixpoint first_match (ps : list pattern) (url : string) : option string :=
  match ps with
  | [] => None
  | p :: rest =>
      match re_search p url with
      | Some g => Some g
      | None => first_match rest url
      end
  end.

Definition extract_gdrive_file_id (url : pyval) : option string :=
  match url with
  | PNone => None
  | PStr u => if Py.nonempty u then first_match patterns u else None
  end.

Definition is_gdrive_url (url : pyval) : bool :=
  match url with
  | PNone => false
  | PStr u =>
      if Py.nonempty u
      then Py.contains "drive.google.com" u || Py.contains "googleusercontent.com" u
      else false
  end.

(** What the mirror does to the outside, in order.  Console messages are
    left out. *)
Inductive event : Type :=
  | MakeDirs (path : string)
  | UrlRetrieve (url filepath : string).

(** The outside: whether [os.makedirs] of a folder succeeds, whether a
    retrieval succeeds, and what was done so far. *)
Record World : Type := mkWorld {
  makedirs_ok : string → bool;
  retrieves : string → string → bool;
  events : list event
}.

Definition log (e : event) (w : World) : World :=
  mkWorld (makedirs_ok w) (retrieves w) (events w ++ [e]).

(** What a call of the mirror comes to: a value, or the [OSError] of
    [os.makedirs], which stands outside the [try] and is caught nowhere in
    the file. *)
Inductive attempt (A : Type) : Type :=
  | Done (a : A)
  | OSError.

Arguments Done {A} a.
Arguments OSError {A}.

(** [os.path.join(a, b)] on POSIX. *)
Definition path_join (a b : string) : string :=
  if Py.startswith "/" b then b
  else if negb (Py.nonempty a) || Py.endswith "/" a then a +:+ b
  else a +:+ "/" +:+ b.

Definition download_image_from_gdrive (gdrive_url : pyval)
    (local_filename : string) (w : World) : attempt bool * World :=
  match extract_gdrive_file_id gdrive_url with
  | None => (Done false, w)
  | Some file_id =>
      if negb (Py.nonempty file_id) then (Done false, w)
      else
        let download_url :=
          "https://drive.google.com/uc?export=download&id=" +:+ file_id in
        let w := log (MakeDirs "images") w in
        if makedirs_ok w "images" then
          let filepath := path_join "images" local_filename in
          let w := log (UrlRetrieve download_url filepath) w in
          if retrieves w download_url filepath
          then (Done true, w) else (Done false, w)
        else (OSError, w)
  end.

Definition process_image_url (url : pyval) (default_filename : string)
    (w : World) : attempt string * World :=
  match url with
  | PNone => (Done "", w)
  | PStr u =>
      if negb (Py.nonempty u) then (Done "", w)
      else if Py.startswith "images/" u then (Done u, w)
      else if is_gdrive_url url then
        match download_image_from_gdrive url default_filename w with
        | (Done ok, w) =>
            if ok then (Done ("images/" +:+ default_filename), w)
            else (Done "", w)
        | (OSError, w) => (OSError, w)
        end
      else (Done u, w)
  end.

(** [str(v)], as an f-string formats a value. *)
Definition py_str (v : pyval) : string :=
  match v with
  | PNone => "None"
  | PStr s => s
  end.

(** The logo of [process_all_images]: [general] is the map of
    [parse_general_info], rewritten under its key [logo_url]. *)
Definition process_logo (general : gmap pyval pyval) (w : World)
  : attempt (gmap pyval pyval) * World :=
  match general !! PStr "logo_url" with
  | Some logo_url =>
      if is_gdrive_url logo_url then
        match process_image_url logo_url "logo.png" w with
        | (Done path, w) =>
            (Done (<[PStr "logo_url" := PStr path]> general), w)
        | (OSError, w) => (OSError, w)
        end
      else (Done general, w)
  | None => (Done general, w)
  end.

(** [detail['bg_image'] = v] *)
Definition set_bg_image (detail : ServiceDetail) (v : pyval) : ServiceDetail :=
  mkServiceDetail (sd_service_id detail) (sd_title detail) (sd_intro detail)
                  (sd_bullets_title detail) (sd_bullets detail)
                  (sd_closing detail) v (sd_image_position detail).

(** One turn of the loop over the details.  A record of
    [parse_service_details] has all its keys, so [bg_image] is in it and
    [detail.get('service_id', ...)] is its [service_id]: the default with
    the index of the loop is never taken. *)
Definition process_detail (detail : ServiceDetail) (w : World)
  : attempt ServiceDetail * World :=
  if is_gdrive_url (sd_bg_image detail) then
    let filename := py_str (sd_service_id detail) +:+ "-bg.jpg" in
    match process_image_url (sd_bg_image detail) filename w with
    | (Done path, w) => (Done (set_bg_image detail (PStr path)), w)
    | (OSError, w) => (OSError, w)
    end
  else (Done detail, w).

(** The loop over the details: it ends at the first turn that raises. *)
Fixpoint process_details (service_details : list ServiceDetail) (w : World)
  : attempt (list ServiceDetail) * World :=
  match service_details with
  | [] => (Done [], w)
  | detail :: rest =>
      match process_detail detail w with
      | (Done detail, w) =>
          match process_details rest w with
          | (Done rest, w) => (Done (detail :: rest), w)
          | (OSError, w) => (OSError, w)
          end
      | (OSError, w) => (OSError, w)
      end
  end.

(** [process_all_images] changes its two arguments in place; here it gives
    them back, with the outside. *)
Definition process_all_images (general : gmap pyval pyval)
    (service_details : list ServiceDetail) (w : World)
  : attempt (gmap pyval pyval * list ServiceDetail) * World :=
  match process_logo general w with
  | (Done general, w) =>
      match process_details service_details w with
      | (Done service_details, w) => (Done (general, service_details), w)
      | (OSError, w) => (OSError, w)
      end
  | (OSError, w) => (OSError, w)
  end.

(** ** Vocabulary of the specification *)

(** A row contributes to a flat map when its field and its value are both
    non-empty. *)
Definition contributes (row : Row) : bool :=
  truthy (get row "field") && truthy (get row "value").

(** The write one row makes to a flat map. *)
Definition flat_put (d : gmap pyval pyval) (row : Row) : gmap pyval pyval :=
  if contributes row then <[get row "field" := get row "value"]> d else d.

(** The bullets of a row: its [key_services] cut at every [|], each piece
    trimmed, the empty ones dropped; none when the cell is missing. *)
Definition bullets_of (row : Row) : list string :=
  match get row "key_services" with
  | PStr ks => strip_nonempty (Py.split "|" ks)
  | PNone => []
  end.

(** The record a row with a service id gives. *)
Definition detail_of (row : Row) : ServiceDetail :=
  mkServiceDetail
    (get_or row "service_id" (PStr ""))
    (get_or row "title" (PStr ""))
    (get_or row "intro" (PStr ""))
    (get_or row "bullets_title" (PStr "Key Services Include:"))
    (bullets_of row)
    (get_or row "closing" (PStr ""))
    (get_or row "bg_image" (PStr ""))
    (get_or row "image_position" (PStr "right")).

(** Rows that carry a service id. *)
Definition has_service_id (row : Row) : bool := truthy (get row "service_id").

(** The two halves of a stat. *)
Inductive stat_part : Type :=
  | Number
  | Label.

#[global] Instance stat_part_eq_dec : EqDecision stat_part.
Proof. solve_decision. Defined.

(** What one row says about the stats: a key, which half, and the value. *)
Record StatEntry : Type := mkEntry {
  e_key : string;
  e_part : stat_part;
  e_value : pyval
}.


Definition put_entry (stats : list Stat) (e : StatEntry) : list Stat :=
  match e_part e with
  | Number => put_number (e_key e) (e_value e) stats
  | Label => put_label (e_key e) (e_value e) stats
  end.






(** The assignment to one half of a stat, and the stat a new key gets. *)
Definition set_part (part : stat_part) (v : pyval) (st : Stat) : Stat :=
  match part with
  | Number => set_number v st
  | Label => set_label v st
  end.

Definition fresh_stat (part : stat_part) (k : string) (v : pyval) : Stat :=
  match part with
  | Number => mkStat k v (PStr "")
  | Label => mkStat k (PStr "") v
  end.


(** The segments of a text at a separator: the pieces between its
    occurrences, trimmed, without the empty ones. *)
Definition segments (sep text : string) : list string :=
  strip_nonempty (Py.split sep text).

(** The address the mirror downloads an identifier from. *)
Definition download_url_of (file_id : string) : string :=
  "https://drive.google.com/uc?export=download&id=" +:+ file_id.

(** Every character of [s] passes [f]. *)
Fixpoint all_chars (f : ascii → bool) (s : string) : bool :=
  match s with
  | EmptyString => true
  | String c s' => f c && all_chars f s'
  end.

(** [s] does not go on with a character that passes [f]. *)
Definition stops (f : ascii → bool) (s : string) : bool :=
  match s with
  | EmptyString => true
  | String c _ => negb (f c)
  end.

(** The host of a URL, for the claim on [is_gdrive_url]: the authority is
    what stands between the [//] behind the scheme and the next [/], [?] or
    [#]; the host is the authority without the user information in front
    of the last [@] and without the port behind the [:]. *)
Fixpoint after_first (sep s : string) : option string :=
  if Py.startswith sep s then Some (Py.drop (String.length sep) s)
  else match s with
       | EmptyString => None
       | String _ s' => after_first sep s'
       end.

Definition ends_authority (c : ascii) : bool :=
  Ascii.eqb c "/" || Ascii.eqb c "?" || Ascii.eqb c "#".

Definition url_authority (url : string) : string :=
  let rest := if Py.startswith "//" url then Some url else after_first ":" url in
  match rest with
  | Some r =>
      if Py.startswith "//" r
      then take_while (λ c, negb (ends_authority c)) (Py.drop 2 r)
      else ""
  | None => ""
  end.

Fixpoint after_last_at (s : string) : string :=
  match s with
  | EmptyString => EmptyString
  | String c s' =>
      if Py.contains "@" s' then after_last_at s'
      else if Ascii.eqb c "@" then s' else s
  end.

Definition url_host (url : string) : string :=
  take_while (λ c, negb (Ascii.eqb c ":")) (after_last_at (url_authority url)).

(** A host name does not tell capital letters from small ones: the name in
    small letters. *)
Definition lower_char (c : ascii) : ascii :=
  let n := nat_of_ascii c in
  if ((65 <=? n) && (n <=? 90))%nat then ascii_of_nat (n + 32) else c.

Fixpoint lower (s : string) : string :=
  match s with
  | EmptyString => EmptyString
  | String c s' => String (lower_char c) (lower s')
  end.

(** The two image hosts, and a host that is one of them or lies under one
    of them, in whatever letters it is written. *)
Definition image_hosts : list string :=
  ["drive.google.com"; "googleusercontent.com"].

Definition host_matches (host : string) : bool :=
  List.existsb (λ d, String.eqb (lower host) d
                     || Py.endswith ("." +:+ d) (lower host))
               image_hosts.

(** A host written in small letters throughout. *)
Definition in_small_letters (host : string) : Prop := lower host = host.

(** [x] occurs in [y]. *)
Definition occurs_in (x y : string) : Prop := ∃ a b, y = a +:+ x +:+ b.

(** [s] does not end with a character that passes [f]. *)
Definition ends_outside (f : ascii → bool) (s : string) : Prop :=
  ∀ k c, s = k +:+ String c EmptyString → f c = false.

(** The field and the value of a row, as [parse_about] reads them. *)
Definition field_of (row : Row) : pyval := get_or row "field" (PStr "").

Definition value_of (row : Row) : pyval := get_or row "value" (PStr "").

Definition is_title_row (row : Row) : bool :=
  bool_decide (field_of row = PStr "title").

Definition is_paragraph_row (row : Row) : bool :=
  match field_of row with
  | PStr f => Py.startswith "paragraph" f
  | PNone => false
  end.

(** Rows whose field is [None]: the key is there, the cell is not. *)
Definition field_is_none (row : Row) : Prop := row !! "field" = Some PNone.

(** The rows [parse_core_values] and [parse_services] keep, and the
    records they make of them. *)
Definition has_icon_and_title (row : Row) : bool :=
  truthy (get row "icon") && truthy (get row "title").

Definition core_value_of (row : Row) : CoreValue :=
  mkCoreValue (get_or row "icon" (PStr default_icon))
              (get_or row "title" (PStr ""))
              (get_or row "description" (PStr ""))
              (get_or row "gradient" (PStr default_gradient)).

Definition has_name (row : Row) : bool := truthy (get row "name").

Definition service_of (row : Row) : Service :=
  mkService (get_or row "name" (PStr ""))
            (get_or row "link_id" (PStr ""))
            (get_or row "gradient" (PStr default_gradient)).

(** A text without white space at either end. *)
Definition trimmed (s : string) : Prop :=
  stops Py.isspace s = true ∧ ends_outside Py.isspace s.

(** The file names [process_all_images] passes on: the logo's, and one for
    each detail. *)
Definition bg_filename (detail : ServiceDetail) : string :=
  py_str (sd_service_id detail) +:+ "-bg.jpg".

Definition image_names (service_details : list ServiceDetail) : list string :=
  "logo.png" :: List.map bg_filename service_details.

(** A text that names one of the two domains somewhere: what
    [is_gdrive_url] goes by. *)
Definition names_image_host (u : string) : Prop :=
  occurs_in "drive.google.com" u ∨ occurs_in "googleusercontent.com" u.

(** A well-formed identifier. *)
Definition is_file_id (file_id : string) : Prop :=
  file_id ≠ "" ∧ all_chars idchar file_id = true.

(** What the mirror may do to the outside: make the folder [images], and
    retrieve the download address of an identifier into the folder's path
    of one of the names. *)
Definition mirror_step (names : list string) (e : event) : Prop :=
  match e with
  | MakeDirs path => path = "images"
  | UrlRetrieve src dst =>
      (∃ file_id, is_file_id file_id ∧ src = download_url_of file_id) ∧
      url_host src = "drive.google.com" ∧
      (∃ fn, fn ∈ names ∧ dst = path_join "images" fn)
  end.

(** The outside after at most [n] more steps of the mirror: what
    succeeds stays as it was, and what was done is added to. *)
Definition goes_on (names : list string) (n : nat) (w w1 : World) : Prop :=
  makedirs_ok w1 = makedirs_ok w ∧
  retrieves w1 = retrieves w ∧
  ∃ done, events w1 = events w ++ done ∧
          Forall (mirror_step names) done ∧ (length done ≤ n)%nat.

(** A reference the mirror has nothing left to do for: one that
    [is_gdrive_url] does not accept, or is in the folder [images] already. *)
Definition settled (v : pyval) : Prop :=
  is_gdrive_url v = true → ∃ p, v = PStr p ∧ Py.startswith "images/" p = true.

(** What the mirror may leave in the place of a reference [old] it was
    given with the file name [fn]: [old] itself when [is_gdrive_url] does
    not accept it; else [old], [''] or [images/<fn>]. *)
Definition left_for (old : pyval) (fn : string) (new : pyval) : Prop :=
  (is_gdrive_url old = false → new = old) ∧
  (new = old ∨ new = PStr "" ∨ new = PStr ("images/" +:+ fn)).

(** * Properties *)

(** ** Facts on the string primitives *)

Module PyFacts.
Import Py.

Lemma app_cons (a : ascii) (s t : string) :
  String a s +:+ t = String a (s +:+ t).
Proof. reflexivity. Qed.

Lemma app_nil_l (t : string) : "" +:+ t = t.
Proof. reflexivity. Qed.

Lemma app_nil_r (s : string) : s +:+ "" = s.
Proof. induction s as [|a s IH]; [reflexivity|]. rewrite app_cons, IH. reflexivity. Qed.

Lemma app_assoc (s t u : string) : (s +:+ t) +:+ u = s +:+ (t +:+ u).
Proof.
  induction s as [|a s IH]; [reflexivity|].
  rewrite !app_cons, IH. reflexivity.
Qed.

Lemma length_app (s t : string) :
  String.length (s +:+ t) = String.length s + String.length t.
Proof.
  induction s as [|a s IH]; [reflexivity|].
  rewrite app_cons. simpl. rewrite IH. reflexivity.
Qed.

Lemma length_zero (s : string) : String.length s = 0 → s = "".
Proof. destruct s; [reflexivity|discriminate]. Qed.

Lemma nonempty_true (s : string) : nonempty s = true ↔ s ≠ "".
Proof. destruct s; simpl; split; congruence. Qed.

Lemma nonempty_false (s : string) : nonempty s = false ↔ s = "".
Proof. destruct s; simpl; split; congruence. Qed.

Lemma length_drop (n : nat) (s : string) :
  String.length (drop n s) = String.length s - n.
Proof.
  revert s; induction n as [|n IH]; intros [|a s]; simpl; try reflexivity.
  apply IH.
Qed.

Lemma drop_app (p r : string) : drop (String.length p) (p +:+ r) = r.
Proof. induction p as [|a p IH]; [reflexivity|]. rewrite app_cons. simpl. exact IH. Qed.

Lemma startswith_app (p r : string) : startswith p (p +:+ r) = true.
Proof.
  induction p as [|a p IH]; [reflexivity|].
  rewrite app_cons. simpl. rewrite Ascii.eqb_refl, IH. reflexivity.
Qed.

Lemma startswith_drop (p s : string) :
  startswith p s = true → s = p +:+ drop (String.length p) s.
Proof.
  revert s; induction p as [|a p IH]; intros [|b s]; simpl;
    try reflexivity; try discriminate.
  intros [Hab Hp]%andb_prop. apply Ascii.eqb_eq in Hab as ->.
  rewrite app_cons. f_equal. apply IH, Hp.
Qed.

(** [startswith] is the prefix relation. *)
Lemma startswith_spec (p s : string) :
  startswith p s = true ↔ ∃ r, s = p +:+ r.
Proof.
  split.
  - intros H. eexists. apply startswith_drop, H.
  - intros [r ->]. apply startswith_app.
Qed.

Lemma endswith_nil (p : string) : endswith p "" = String.eqb "" p.
Proof. simpl. apply orb_false_r. Qed.

Lemma endswith_cons (p : string) (a : ascii) (s : string) :
  endswith p (String a s) = String.eqb (String a s) p || endswith p s.
Proof. reflexivity. Qed.

(** [endswith] is the suffix relation. *)
Lemma endswith_spec (p s : string) :
  endswith p s = true ↔ ∃ k, s = k +:+ p.
Proof.
  split.
  - induction s as [|a s IH].
    + rewrite endswith_nil. intros <-%String.eqb_eq. exists "". reflexivity.
    + rewrite endswith_cons. intros [<-%String.eqb_eq | H]%orb_prop.
      * exists "". reflexivity.
      * destruct (IH H) as [k ->]. exists (String a k). reflexivity.
  - intros [k ->]. induction k as [|a k IH].
    + rewrite app_nil_l. destruct p as [|a p].
      * reflexivity.
      * rewrite endswith_cons, String.eqb_refl. reflexivity.
    + rewrite app_cons, endswith_cons, IH. apply orb_true_r.
Qed.

Lemma contains_nil (sub : string) : contains sub "" = startswith sub "".
Proof. simpl. apply orb_false_r. Qed.

Lemma contains_cons (sub : string) (c : ascii) (s : string) :
  contains sub (String c s) = startswith sub (String c s) || contains sub s.
Proof. reflexivity. Qed.

(** [contains] finds an occurrence anywhere. *)
Lemma contains_spec (sub s : string) :
  contains sub s = true ↔ ∃ a b, s = a +:+ sub +:+ b.
Proof.
  split.
  - induction s as [|c s IH].
    + rewrite contains_nil. intros [r Hr]%startswith_spec. exists "", r. exact Hr.
    + rewrite contains_cons. intros [[r Hr]%startswith_spec | H]%orb_prop.
      * exists "", r. exact Hr.
      * destruct (IH H) as (a & b & ->). exists (String c a), b. reflexivity.
  - intros (a & b & ->). induction a as [|c a IH].
    + rewrite app_nil_l. destruct (sub +:+ b) as [|c r] eqn:E.
      * rewrite contains_nil, <- E. apply startswith_app.
      * rewrite contains_cons, <- E, startswith_app. reflexivity.
    + rewrite app_cons, contains_cons, IH. apply orb_true_r.
Qed.

Lemma length_pos (s : string) : s ≠ "" → 0 < String.length s.
Proof. destruct s; [congruence|simpl; lia]. Qed.

Lemma split_fuel_S (n : nat) (sep : string) (c : ascii) (s : string) :
  split_fuel (S n) sep (String c s) =
  if startswith sep (String c s)
  then "" :: split_fuel n sep (drop (String.length sep) (String c s))
  else push c (split_fuel n sep s).
Proof. reflexivity. Qed.

(** Any fuel from the length of the string on gives the same split. *)
Lemma split_fuel_enough (sep : string) :
  sep ≠ "" → ∀ n m s,
  (String.length s ≤ n)%nat → (String.length s ≤ m)%nat →
  split_fuel n sep s = split_fuel m sep s.
Proof.
  intros Hsep%length_pos n. induction n as [|n IH]; intros m s Hn Hm.
  - assert (s = "") as -> by (apply length_zero; lia). destruct m; reflexivity.
  - destruct s as [|c s]; [destruct m; reflexivity|].
    destruct m as [|m]; [simpl in Hm; lia|].
    rewrite !split_fuel_S. destruct (startswith sep (String c s)).
    + f_equal. apply IH; rewrite length_drop; simpl in *; lia.
    + f_equal. apply IH; simpl in *; lia.
Qed.

Lemma split_nil (sep : string) : split sep "" = [""].
Proof. reflexivity. Qed.

Lemma split_cons (sep : string) (c : ascii) (s : string) :
  sep ≠ "" →
  split sep (String c s) =
  if startswith sep (String c s)
  then "" :: split sep (drop (String.length sep) (String c s))
  else push c (split sep s).
Proof.
  intros Hsep. unfold split. simpl String.length. rewrite split_fuel_S.
  destruct (startswith sep (String c s)).
  - f_equal. apply split_fuel_enough; [exact Hsep| |lia].
    rewrite length_drop. apply length_pos in Hsep. simpl. lia.
  - reflexivity.
Qed.

Lemma split_match (sep r : string) :
  sep ≠ "" → split sep (sep +:+ r) = "" :: split sep r.
Proof.
  intros Hsep. destruct sep as [|c sep]; [congruence|].
  rewrite app_cons, split_cons by exact Hsep.
  rewrite <- app_cons, startswith_app, drop_app. reflexivity.
Qed.

Lemma push_not_nil (c : ascii) (l : list string) : push c l ≠ [].
Proof. destruct l; discriminate. Qed.

Lemma split_fuel_not_nil (n : nat) (sep s : string) : split_fuel n sep s ≠ [].
Proof.
  destruct s as [|c s]; [destruct n; discriminate|].
  destruct n as [|n]; [discriminate|]. rewrite split_fuel_S.
  destruct (startswith sep (String c s)); [discriminate|apply push_not_nil].
Qed.

Lemma split_not_nil (sep s : string) : split sep s ≠ [].
Proof. apply split_fuel_not_nil. Qed.

Lemma join_cons_cons (sep x y : string) (l : list string) :
  join sep (x :: y :: l) = x +:+ sep +:+ join sep (y :: l).
Proof. reflexivity. Qed.

Lemma join_push (sep : string) (c : ascii) (l : list string) :
  l ≠ [] → join sep (push c l) = String c (join sep l).
Proof. destruct l as [|h [|h' t]]; [congruence|reflexivity..]. Qed.

(** Joining the pieces with the separator gives the string back. *)
Lemma join_split (sep s : string) : sep ≠ "" → join sep (split sep s) = s.
Proof.
  intros Hsep. remember (String.length s) as n eqn:Hn. revert s Hn.
  induction n as [n IH] using lt_wf_ind. intros [|c s] Hn; [reflexivity|].
  rewrite split_cons by exact Hsep.
  destruct (startswith sep (String c s)) eqn:E.
  - apply startswith_drop in E.
    set (r := drop (String.length sep) (String c s)) in *.
    assert (Hr : join sep (split sep r) = r).
    { apply (IH (String.length r)); [|reflexivity].
      rewrite Hn, E, length_app. apply length_pos in Hsep. lia. }
    destruct (split sep r) as [|y l] eqn:Er; [apply split_not_nil in Er as []|].
    rewrite join_cons_cons, Hr, app_nil_l. symmetry. exact E.
  - rewrite join_push by apply split_not_nil. f_equal.
    apply (IH (String.length s)); [simpl in Hn; lia|reflexivity].
Qed.

(** No piece of a split holds the separator. *)
Lemma split_sep_free (sep s : string) :
  sep ≠ "" → Forall (λ piece, contains sep piece = false) (split sep s).
Proof.
  intros Hsep. remember (String.length s) as n eqn:Hn. revert s Hn.
  induction n as [n IH] using lt_wf_ind. intros [|c s] Hn.
  - repeat constructor. destruct sep; [congruence|reflexivity].
  - rewrite split_cons by exact Hsep.
    destruct (startswith sep (String c s)) eqn:E.
    + constructor; [destruct sep; [congruence|reflexivity]|].
      apply (IH (String.length (drop (String.length sep) (String c s))));
        [|reflexivity].
      rewrite Hn, length_drop. apply length_pos in Hsep. simpl. lia.
    + pose proof (join_split sep s Hsep) as Hjoin.
      assert (Hall : Forall (λ piece, contains sep piece = false) (split sep s)).
      { apply (IH (String.length s)); [simpl in Hn; lia|reflexivity]. }
      destruct (split sep s) as [|h t] eqn:Es; [apply split_not_nil in Es as []|].
      apply Forall_cons in Hall as [Hh Ht]. simpl. constructor; [|exact Ht].
      rewrite contains_cons, Hh, orb_false_r.
      destruct (startswith sep (String c h)) eqn:Eh; [|reflexivity].
      apply startswith_spec in Eh as [x Hx].
      assert (∃ r, s = h +:+ r) as [r Hr].
      { destruct t as [|y t]; simpl in Hjoin.
        - exists "". rewrite app_nil_r. symmetry. exact Hjoin.
        - eexists. symmetry. exact Hjoin. }
      assert (startswith sep (String c s) = true); [|congruence].
      apply startswith_spec. exists (x +:+ r).
      rewrite Hr, <- app_cons, Hx, app_assoc. reflexivity.
Qed.



Lemma replace_nil (old new : string) : replace old new "" = "".
Proof. reflexivity. Qed.




(** What is cut off in front is white space, and what is left does not
    start with any. *)
Lemma lstrip_spec (s : string) :
  ∃ ws, s = ws +:+ lstrip s ∧ all_chars isspace ws = true ∧
        stops isspace (lstrip s) = true.
Proof.
  induction s as [|c s (ws & Hs & Hws & Hstop)]; simpl.
  - exists "". repeat split.
  - destruct (isspace c) eqn:Hc.
    + exists (String c ws). rewrite app_cons, <- Hs. simpl. rewrite Hc, Hws.
      repeat split. exact Hstop.
    + exists "". simpl. rewrite Hc. repeat split.
Qed.

(** What is cut off behind is white space, and what is left does not end
    with any. *)
Lemma rstrip_spec (s : string) :
  ∃ ws, s = rstrip s +:+ ws ∧ all_chars isspace ws = true ∧
        ends_outside isspace (rstrip s).
Proof.
  induction s as [|c s (ws & Hs & Hws & Hend)]; simpl.
  - exists "". repeat split. intros [|? ?] ? ?; discriminate.
  - destruct (rstrip s) as [|d r] eqn:Hr.
    + rewrite app_nil_l in Hs. subst ws. destruct (isspace c) eqn:Hc.
      * exists (String c s). simpl. rewrite Hc, Hws. repeat split.
        intros [|? ?] ? ?; discriminate.
      * exists s. repeat split; [exact Hws|].
        intros [|? [|? ?]] c' [= <- ]; try discriminate. exact Hc.
    + exists ws. rewrite app_cons, <- Hs. repeat split; [exact Hws|].
      intros [|x k] c' Hk; [discriminate|].
      rewrite app_cons in Hk. injection Hk as _ Hk. apply (Hend k c' Hk).
Qed.

End PyFacts.

(** ** Loops *)


(** A body that never raises makes the loop a left fold. *)
Lemma for_each_pure {S A : Type} (body : S → A → result S) (f : S → A → S) :
  (∀ s x, body s x = Ok (f s x)) →
  ∀ l s, for_each body l s = Ok (fold_left f l s).
Proof.
  intros Hbody l. induction l as [|x l IH]; intros s; simpl; [reflexivity|].
  rewrite Hbody. simpl. apply IH.
Qed.

(** ** Flat maps: general info, hero, contact *)

Lemma truthy_lookup (row : Row) (k : string) :
  truthy (get row k) = true → row !! k = Some (get row k).
Proof. unfold get. destruct (row !! k); simpl; [reflexivity|discriminate]. Qed.

Lemma field_value_row_pure (d : gmap pyval pyval) (row : Row) :
  field_value_row d row = Ok (flat_put d row).
Proof.
  unfold field_value_row, flat_put, contributes.
  destruct (truthy (get row "field")) eqn:Hf; [|reflexivity].
  destruct (truthy (get row "value")) eqn:Hv; [|reflexivity].
  simpl. unfold getitem.
  rewrite (truthy_lookup _ _ Hf), (truthy_lookup _ _ Hv). reflexivity.
Qed.

Lemma flat_parse_fold (data : list Row) :
  for_each field_value_row data ∅ = Ok (fold_left flat_put data ∅).
Proof. apply for_each_pure, field_value_row_pure. Qed.

(** The entry under a key is the one of the last row that contributes to
    that key. *)
Lemma flat_fold_lookup (data : list Row) (k v : pyval) :
  fold_left flat_put data ∅ !! k = Some v ↔
  ∃ before row after,
    data = before ++ row :: after ∧ contributes row = true ∧
    get row "field" = k ∧ get row "value" = v ∧
    Forall (λ r, ¬ (contributes r = true ∧ get r "field" = k)) after.
Proof.
  induction data as [|x data IH] using rev_ind.
  - simpl. rewrite lookup_empty. split; [discriminate|].
    intros (b & r & a & H & _). destruct b; discriminate.
  - rewrite fold_left_app. simpl.
    assert (Hskip : ¬ (contributes x = true ∧ get x "field" = k) →
      (fold_left flat_put data ∅ !! k = Some v ↔
       ∃ before row after,
         data ++ [x] = before ++ row :: after ∧ contributes row = true ∧
         get row "field" = k ∧ get row "value" = v ∧
         Forall (λ r, ¬ (contributes r = true ∧ get r "field" = k)) after)).
    { intros Hx. rewrite IH. split.
      - intros (b & r & a & -> & Hc & Hf & Hv & Hall).
        exists b, r, (a ++ [x]). rewrite <- app_assoc. simpl.
        repeat split; try assumption.
        apply Forall_app; split; [assumption|]. repeat constructor. assumption.
      - intros (b & r & a & Heq & Hc & Hf & Hv & Hall).
        destruct a as [|y a _] using rev_ind.
        + apply app_inj_tail in Heq as [_ ->]. exfalso. apply Hx. split; assumption.
        + rewrite app_comm_cons, app_assoc in Heq.
          apply app_inj_tail in Heq as [-> ->].
          apply Forall_app in Hall as [Hall _].
          exists b, r, a. repeat split; assumption. }
    unfold flat_put at 1. destruct (contributes x) eqn:Hcx.
    + destruct (decide (get x "field" = k)) as [Hk|Hk].
      * rewrite Hk, lookup_insert_eq. split.
        -- intros [= <-]. exists data, x, []. repeat split; try assumption. constructor.
        -- intros (b & r & a & Heq & Hc & Hf & Hv & Hall).
           destruct a as [|y a _] using rev_ind.
           ++ apply app_inj_tail in Heq as [_ ->]. rewrite Hv. reflexivity.
           ++ rewrite app_comm_cons, app_assoc in Heq.
              apply app_inj_tail in Heq as [_ ->].
              apply Forall_app in Hall as [_ Hy]. rewrite Forall_singleton in Hy.
              exfalso. apply Hy. split; assumption.
      * rewrite lookup_insert_ne by exact Hk. apply Hskip. intros [_ ?]. contradiction.
    + apply Hskip. intros [? _]. congruence.
Qed.

(** Folding over more rows writes over what was there. *)
Lemma flat_fold_union (data : list Row) (d : gmap pyval pyval) :
  fold_left flat_put data d = fold_left flat_put data ∅ ∪ d.
Proof.
  revert d. induction data as [|x data IH]; intros d; simpl.
  - rewrite (left_id ∅ (∪)). reflexivity.
  - rewrite IH, (IH (flat_put ∅ x)). unfold flat_put.
    destruct (contributes x); [|rewrite (right_id ∅ (∪)); reflexivity].
    rewrite insert_empty, <- (assoc (∪)), <- insert_union_singleton_l. reflexivity.
Qed.

Lemma flat_fold_twice (data : list Row) :
  fold_left flat_put (data ++ data) ∅ = fold_left flat_put data ∅.
Proof.
  rewrite fold_left_app, flat_fold_union. apply map_eq. intros k.
  rewrite lookup_union. destruct (fold_left flat_put data ∅ !! k); reflexivity.
Qed.

(** C9.  [parse_general_info], [parse_hero] and [parse_contact] are one and
    the same fold, a function of the rows alone.  It returns a map in which
    a key has an entry exactly when some row with a non-empty [field] and a
    non-empty [value] names it, the entry being the value of the last such
    row; running it over the rows twice in a row gives the same map. *)
Theorem flat_parsers_last_write_wins (data : list Row) :
  ∃ m : gmap pyval pyval,
    parse_general_info data = Ok m ∧ parse_hero data = Ok m ∧
    parse_contact data = Ok m ∧
    (∀ k v, m !! k = Some v ↔
       ∃ before row after,
         data = before ++ row :: after ∧ contributes row = true ∧
         get row "field" = k ∧ get row "value" = v ∧
         Forall (λ r, ¬ (contributes r = true ∧ get r "field" = k)) after) ∧
    parse_general_info (data ++ data) = Ok m.
Proof.
  exists (fold_left flat_put data ∅).
  unfold parse_general_info, parse_hero, parse_contact.
  rewrite !flat_parse_fold, flat_fold_twice.
  repeat split; try reflexivity; apply flat_fold_lookup.
Qed.

(** ** Lists of records: core values, services, service details *)

(** A loop that appends one record for every row it keeps. *)
Lemma fold_left_append {A B : Type} (keep : A → bool) (g : A → B)
    (l : list A) (acc : list B) :
  fold_left (λ acc x, if keep x then acc ++ [g x] else acc) l acc =
  acc ++ List.map g (List.filter keep l).
Proof.
  revert acc. induction l as [|x l IH]; intros acc; simpl.
  - rewrite app_nil_r. reflexivity.
  - rewrite IH. destruct (keep x); simpl; [|reflexivity].
    rewrite <- app_assoc. reflexivity.
Qed.

Lemma get_or_truthy (row : Row) (k : string) (d : pyval) :
  truthy (get row k) = true → get_or row k d = get row k.
Proof. unfold get, get_or. destruct (row !! k); simpl; [reflexivity|discriminate]. Qed.

Lemma split_single_empty (sep : string) : strip_nonempty (Py.split sep "") = [].
Proof. reflexivity. Qed.

Lemma service_detail_row_pure (details : list ServiceDetail) (row : Row) :
  service_detail_row details row =
  Ok (if has_service_id row then details ++ [detail_of row] else details).
Proof.
  unfold service_detail_row, has_service_id.
  destruct (truthy (get row "service_id")); [|reflexivity].
  unfold detail_of, bullets_of.
  destruct (truthy (get row "key_services")) eqn:Hk.
  - rewrite (get_or_truthy _ _ _ Hk).
    destruct (get row "key_services"); [discriminate|reflexivity].
  - simpl. destruct (get row "key_services") as [|ks]; [reflexivity|].
    simpl in Hk. apply PyFacts.nonempty_false in Hk as ->. reflexivity.
Qed.

Lemma parse_service_details_map (data : list Row) :
  parse_service_details data =
  Ok (List.map detail_of (List.filter has_service_id data)).
Proof.
  unfold parse_service_details.
  rewrite (for_each_pure _ _ service_detail_row_pure), fold_left_append.
  reflexivity.
Qed.

Lemma parse_core_values_total (data : list Row) :
  ∃ values, parse_core_values data = Ok values.
Proof.
  unfold parse_core_values.
  erewrite (for_each_pure core_value_row
    (λ values row, if truthy (get row "icon") && truthy (get row "title")
                   then values ++ [_] else values)).
  - eexists. reflexivity.
  - intros values row. unfold core_value_row.
    destruct (truthy (get row "icon") && truthy (get row "title")); reflexivity.
Qed.

Lemma parse_services_total (data : list Row) :
  ∃ services, parse_services data = Ok services.
Proof.
  unfold parse_services.
  erewrite (for_each_pure service_row
    (λ services row, if truthy (get row "name")
                     then services ++ [_] else services)).
  - eexists. reflexivity.
  - intros services row. unfold service_row.
    destruct (truthy (get row "name")); reflexivity.
Qed.

(** C8.  [parse_service_details] returns one record for every row with a
    non-empty [service_id], in the order of the rows, and passes over the
    others; the bullets of a record are the pieces of the row's
    [key_services] between the [|], trimmed, without the empty ones.  A
    cell [One | Two | Three] gives the three names, an empty or missing
    cell gives no bullet. *)
Theorem parse_service_details_bullets (data : list Row) :
  ∃ details,
    parse_service_details data = Ok details ∧
    Forall2 (λ row d, sd_service_id d = get row "service_id" ∧
                      sd_bullets d = bullets_of row)
            (List.filter (λ row, truthy (get row "service_id")) data) details ∧
    (∀ row : Row,
       bullets_of (<["key_services" := PStr "One | Two | Three"]> row) =
       ["One"; "Two"; "Three"]) ∧
    (∀ row : Row, bullets_of (<["key_services" := PStr ""]> row) = []) ∧
    (∀ row : Row, bullets_of (delete "key_services" row) = []).
Proof.
  exists (List.map detail_of (List.filter has_service_id data)).
  split; [apply parse_service_details_map|]. split; [|repeat split].
  - unfold has_service_id.
    induction data as [|row data IH]; simpl; [constructor|].
    destruct (truthy (get row "service_id")) eqn:Hid; [|exact IH].
    simpl. constructor; [|exact IH]. split; [|reflexivity].
    simpl. apply get_or_truthy, Hid.
  - intros row. unfold bullets_of, get. rewrite lookup_insert_eq. reflexivity.
  - intros row. unfold bullets_of, get. rewrite lookup_insert_eq. reflexivity.
  - intros row. unfold bullets_of, get. rewrite lookup_delete_eq. reflexivity.
Qed.

(** C6.  The record of a row keeps the row's [image_position] as it
    stands: [right] is taken for a row without the cell only, not for a
    blank one.  For the row [service_id = audit] with a blank
    [image_position], as a sheet with an empty cell gives it, the record
    holds the blank, which is neither [left] nor [right]; the renderer then
    takes the mask and the grid order of [right], but not the spacer that
    it puts behind the text for [right]. *)
Theorem image_position_blank_breaks_layout :
  (∀ data, ∃ details,
     parse_service_details data = Ok details ∧
     Forall2 (λ row d,
                sd_image_position d
                = default (PStr "right") (row !! "image_position"))
             (List.filter (λ row, truthy (get row "service_id")) data)
             details) ∧
  let row : Row :=
    {[ "service_id" := PStr "audit"; "image_position" := PStr "" ]} in
  ∃ d, parse_service_details [row] = Ok [d] ∧
       sd_image_position d = PStr "" ∧
       sd_image_position d ≠ PStr "left" ∧
       sd_image_position d ≠ PStr "right" ∧
       service_detail_layout (sd_image_position d)
       = service_detail_layout (PStr "right") ∧
       trailing_spacer (PStr "right") ≠ "" ∧
       trailing_spacer (sd_image_position d) = "".
Proof.
  split.
  - intros data.
    exists (List.map detail_of (List.filter has_service_id data)).
    split; [apply parse_service_details_map|].
    unfold has_service_id.
    induction data as [|row data IH]; simpl; [constructor|].
    destruct (truthy (get row "service_id")); [|exact IH].
    simpl. constructor; [reflexivity|exact IH].
  - intros row.
    exists (detail_of row). split; [vm_compute; reflexivity|].
    repeat split; try (vm_compute; reflexivity); vm_compute; discriminate.
Qed.

(** ** Totality *)

(** The flat parsers and the list parsers always return. *)
Lemma list_and_flat_parsers_total (data : list Row) :
  (∃ r, parse_general_info data = Ok r) ∧ (∃ r, parse_hero data = Ok r) ∧
  (∃ r, parse_core_values data = Ok r) ∧ (∃ r, parse_services data = Ok r) ∧
  (∃ r, parse_service_details data = Ok r) ∧ (∃ r, parse_contact data = Ok r).
Proof.
  repeat split;
    first [ eexists; apply flat_parse_fold
          | apply parse_core_values_total
          | apply parse_services_total
          | eexists; apply parse_service_details_map ].
Qed.

(** C2 fails on [parse_about].  Under the header [value,field] the line
    [X] reaches the parser as a row whose field is [None]: the key is
    there, so [row.get('field', '')] is [None], and [field.startswith]
    raises. *)
Theorem parse_about_raises_on_short_row :
  dict_reader_row ["value"; "field"] ["X"] =
    {[ "value" := PStr "X"; "field" := PNone ]} ∧
  parse_about [ {[ "value" := PStr "X"; "field" := PNone ]} ] =
    Raise AttributeError.
Proof. split; vm_compute; reflexivity. Qed.

(** ** About: the order of the tests on the field name *)


(** What [about_row] does to a row whose field is a string. *)
Lemma about_row_str (about : About) (row : Row) (f : string) :
  get_or row "field" (PStr "") = PStr f →
  about_row about row =
  Ok (let value := get_or row "value" (PStr "") in
      if decide (f = "title") then
        mkAbout value (about_paragraphs about) (about_stats about)
      else if Py.startswith "paragraph" f then
        mkAbout (about_title about) (about_paragraphs about ++ [value])
                (about_stats about)
      else if Py.endswith "_number" f then
        mkAbout (about_title about) (about_paragraphs about)
                (put_number (Py.replace "_number" "" f) value (about_stats about))
      else if Py.endswith "_label" f then
        mkAbout (about_title about) (about_paragraphs about)
                (put_label (Py.replace "_label" "" f) value (about_stats about))
      else about).
Proof.
  intros Hf. unfold about_row. rewrite Hf.
  destruct (decide (PStr f = PStr "title")) as [[= ->]|Hne].
  - reflexivity.
  - destruct (decide (f = "title")) as [->|_]; [congruence|].
    cbv beta iota zeta
      delta [mbind result_bind str_startswith str_endswith str_replace].
    destruct (Py.startswith "paragraph" f); [reflexivity|].
    destruct (Py.endswith "_number" f); [reflexivity|].
    destruct (Py.endswith "_label" f); reflexivity.
Qed.






(** ** About: the stats *)




Lemma find_stat_None (k : string) (stats : list Stat) :
  find_stat k stats = None → k ∉ stat_key <$> stats.
Proof.
  induction stats as [|s stats IH]; simpl; [intros _; apply not_elem_of_nil|].
  destruct (decide (stat_key s = k)) as [|Hne]; [discriminate|].
  destruct (find_stat k stats); [discriminate|]. intros _.
  rewrite elem_of_cons. intros [?|?]; [congruence|]. apply IH; auto.
Qed.








Lemma put_entry_unfold (stats : list Stat) (e : StatEntry) :
  put_entry stats e =
  match find_stat (e_key e) stats with
  | None => stats ++ [fresh_stat (e_part e) (e_key e) (e_value e)]
  | Some i => alter (set_part (e_part e) (e_value e)) i stats
  end.
Proof. destruct e as [k [] v]; reflexivity. Qed.

Lemma stat_key_set_part (part : stat_part) (v : pyval) (st : Stat) :
  stat_key (set_part part v st) = stat_key st.
Proof. destruct part; reflexivity. Qed.


Lemma stat_key_fresh (part : stat_part) (k : string) (v : pyval) :
  stat_key (fresh_stat part k v) = k.
Proof. destruct part; reflexivity. Qed.





Lemma take_drop (n : nat) (s : string) : Py.take n s +:+ Py.drop n s = s.
Proof.
  revert s. induction n as [|n IH]; intros [|c s]; try reflexivity.
  simpl. rewrite PyFacts.app_cons, IH. reflexivity.
Qed.









Lemma parse_about_total_on_strings (data : list Row) :
  Forall (λ row : Row, row !! "field" ≠ Some PNone) data →
  ∃ about, parse_about data = Ok about.
Proof.
  unfold parse_about. generalize (mkAbout (PStr "") [] []).
  intros a0 Hdata. revert a0.
  induction Hdata as [|row data Hrow _ IH]; intros a0; [eexists; reflexivity|].
  assert (∃ f, get_or row "field" (PStr "") = PStr f) as [f Hf].
  { unfold get_or. destruct (row !! "field") as [[|f]|]; [congruence|eauto..]. }
  simpl. rewrite (about_row_str _ _ _ Hf). apply IH.
Qed.

(** ** Paragraph reflow *)

Lemma join_concat (sep : string) (l : list string) :
  Py.join sep l = String.concat sep l.
Proof.
  induction l as [|x l IH]; [reflexivity|].
  destruct l as [|y l]; [reflexivity|].
  rewrite PyFacts.join_cons_cons, IH. reflexivity.
Qed.

Lemma strip_nonempty_trim_first (pieces : list string) :
  strip_nonempty pieces = List.filter Py.nonempty (List.map Py.strip pieces).
Proof.
  unfold strip_nonempty. induction pieces as [|x pieces IH]; [reflexivity|].
  simpl. destruct (Py.nonempty (Py.strip x)); simpl; rewrite IH; reflexivity.
Qed.

(** C3.  [text_to_paragraphs] cuts a text at [||] when the text holds one
    anywhere; else at the blank lines when that gives more than one
    segment; else at the line breaks when that gives more than one
    segment; else it takes the whole text, trimmed, as one paragraph.
    Cutting at a separator gives the pieces between its occurrences: put
    together again with the separator they are the text, and none holds
    the separator; the segments are the pieces trimmed, without the empty
    ones.  Each paragraph that is not empty gives one block, which holds
    it on a line between the opening tag of the class and the closing
    tag; the blocks stand in the order of the paragraphs, a line break
    between two.  So [A||B||C] gives the three blocks of A, B and C in
    this order, and [single line] one block with the whole text. *)
Theorem text_to_paragraphs_chain (text css_class : string) :
  let block para :=
    "                    <p class=" +:+ dq +:+ css_class +:+ dq +:+ ">"
    +:+ nl +:+ "                        " +:+ para
    +:+ nl +:+ "                    </p>" in
  let paragraphs :=
    if Py.contains "||" text then segments "||" text
    else if (1 <? length (segments (nl +:+ nl) text))%nat
         then segments (nl +:+ nl) text
    else if (1 <? length (segments nl text))%nat
         then segments nl text
    else [Py.strip text] in
  text_to_paragraphs (PStr text) css_class =
    String.concat nl (List.map block (List.filter Py.nonempty paragraphs)) ∧
  (Py.contains "||" text = true ↔ ∃ a b, text = a +:+ "||" +:+ b) ∧
  (∀ sep, sep ∈ ["||"; nl +:+ nl; nl] →
     String.concat sep (Py.split sep text) = text ∧
     Forall (λ piece, ¬ occurs_in sep piece) (Py.split sep text) ∧
     segments sep text =
       List.filter Py.nonempty (List.map Py.strip (Py.split sep text))) ∧
  text_to_paragraphs (PStr "A||B||C") css_class =
    block "A" +:+ nl +:+ block "B" +:+ nl +:+ block "C" ∧
  text_to_paragraphs (PStr "single line") css_class = block "single line".
Proof.
  cbv zeta. split; [|split; [apply PyFacts.contains_spec|split]].
  - rewrite <- join_concat.
    unfold text_to_paragraphs. destruct (Py.nonempty text) eqn:Hne.
    + unfold paragraphs_of, segments.
      destruct (Py.contains "||" text); [reflexivity|].
      rewrite !Nat.ltb_antisym.
      destruct (length (strip_nonempty (Py.split (nl +:+ nl) text)) <=? 1)%nat;
        [|reflexivity].
      destruct (length (strip_nonempty (Py.split nl text)) <=? 1)%nat;
        reflexivity.
    + apply PyFacts.nonempty_false in Hne as ->. reflexivity.
  - intros sep Hsep.
    assert (Hne : sep ≠ "").
    { apply elem_of_cons in Hsep as [->|Hsep]; [discriminate|].
      apply elem_of_cons in Hsep as [->|Hsep]; [discriminate|].
      apply elem_of_cons in Hsep as [->|Hsep]; [discriminate|].
      inversion Hsep. }
    split; [rewrite <- join_concat; apply PyFacts.join_split, Hne|]. split.
    + eapply Forall_impl; [apply PyFacts.split_sep_free, Hne|].
      intros piece Hfree Hocc. apply PyFacts.contains_spec in Hocc. congruence.
    + apply strip_nonempty_trim_first.
  - split; reflexivity.
Qed.

(** The renderer closes the grid with a spacer for [right] alone. *)
Remark trailing_spacer_right_only (image_position : pyval) :
  trailing_spacer image_position ≠ "" ↔ image_position = PStr "right".
Proof.
  unfold trailing_spacer. destruct (decide (image_position = PStr "right")).
  - split; [auto|]. intros _. discriminate.
  - split; [congruence|contradiction].
Qed.

(** ** Image mirror: the identifier *)

(** The longest run of characters of a class at the start of a string. *)
Lemma take_while_spec (f : ascii → bool) (s : string) :
  ∃ rest, s = take_while f s +:+ rest ∧
          all_chars f (take_while f s) = true ∧ stops f rest = true.
Proof.
  induction s as [|c s (rest & Hs & Hall & Hstop)]; simpl.
  - exists "". repeat split.
  - destruct (f c) eqn:Hc.
    + exists rest. rewrite PyFacts.app_cons, <- Hs. simpl. rewrite Hc, Hall.
      repeat split. exact Hstop.
    + exists (String c s). simpl. rewrite Hc. repeat split.
Qed.

(** A match at the start: the literal text, then the group, which is not
    empty, lies in the class, and is as long as it can be. *)
Lemma match_here_Some (p : pattern) (s g : string) :
  match_here p s = Some g →
  ∃ post, s = lead p +:+ g +:+ post ∧ g ≠ "" ∧
          all_chars (cls p) g = true ∧ stops (cls p) post = true.
Proof.
  unfold match_here. destruct (Py.startswith (lead p) s) eqn:Hlead; [|discriminate].
  apply PyFacts.startswith_drop in Hlead.
  destruct (take_while_spec (cls p) (Py.drop (String.length (lead p)) s))
    as (post & Hrest & Hall & Hstop).
  destruct (Py.nonempty (take_while (cls p) _)) eqn:Hne; [|discriminate].
  intros [= <-]. exists post. rewrite <- Hrest.
  repeat split; try assumption. apply PyFacts.nonempty_true, Hne.
Qed.

Lemma match_here_None (p : pattern) (c : ascii) (b : string) :
  cls p c = true → match_here p (lead p +:+ String c b) ≠ None.
Proof.
  intros Hc. unfold match_here.
  rewrite PyFacts.startswith_app, PyFacts.drop_app. simpl. rewrite Hc. discriminate.
Qed.

Lemma re_search_unfold (p : pattern) (s : string) :
  re_search p s =
  match match_here p s with
  | Some g => Some g
  | None => match s with
            | "" => None
            | String _ s' => re_search p s'
            end
  end.
Proof. destruct s; reflexivity. Qed.

(** What [re_search] finds lies in the string behind the literal text. *)
Lemma re_search_Some (p : pattern) (s g : string) :
  re_search p s = Some g →
  ∃ pre post, s = pre +:+ lead p +:+ g +:+ post ∧ g ≠ "" ∧
              all_chars (cls p) g = true ∧ stops (cls p) post = true.
Proof.
  induction s as [|c s IH]; rewrite re_search_unfold.
  - destruct (match_here p "") eqn:Hm; [|discriminate].
    intros [= ->]. apply match_here_Some in Hm as (post & ? & ? & ? & ?).
    exists "", post. repeat split; assumption.
  - destruct (match_here p (String c s)) eqn:Hm.
    + intros [= ->]. apply match_here_Some in Hm as (post & ? & ? & ? & ?).
      exists "", post. repeat split; assumption.
    + intros (pre & post & -> & ? & ? & ?)%IH.
      exists (String c pre), post. repeat split; assumption.
Qed.

(** [re_search] finds nothing only where the literal text is nowhere
    followed by a character of the class. *)
Lemma re_search_None (p : pattern) (s : string) :
  re_search p s = None ↔
  ∀ a c b, s = a +:+ lead p +:+ String c b → cls p c = false.
Proof.
  split.
  - induction s as [|x s IH]; rewrite re_search_unfold.
    + destruct (match_here p "") eqn:Hm; [discriminate|]. intros _ a c b Hs.
      destruct a; [|discriminate]. rewrite PyFacts.app_nil_l in Hs.
      destruct (cls p c) eqn:Hc; [|reflexivity].
      rewrite Hs in Hm. apply match_here_None in Hm as []. exact Hc.
    + destruct (match_here p (String x s)) eqn:Hm; [discriminate|].
      intros Hs a c b Heq. destruct a as [|y a].
      * rewrite PyFacts.app_nil_l in Heq.
        destruct (cls p c) eqn:Hc; [|reflexivity].
        rewrite Heq in Hm. apply match_here_None in Hm as []. exact Hc.
      * rewrite PyFacts.app_cons in Heq. injection Heq as _ Heq.
        apply (IH Hs a c b Heq).
  - intros Hno. induction s as [|x s IH]; rewrite re_search_unfold.
    + destruct (match_here p "") as [g|] eqn:Hm; [|reflexivity].
      apply match_here_Some in Hm as (post & Hs & Hg & Hall & _).
      destruct g as [|c g]; [congruence|].
      simpl in Hall. apply andb_prop in Hall as [Hc _].
      rewrite (Hno "" c (g +:+ post)) in Hc; [discriminate|exact Hs].
    + destruct (match_here p (String x s)) as [g|] eqn:Hm.
      * apply match_here_Some in Hm as (post & Hs & Hg & Hall & _).
        destruct g as [|c g]; [congruence|].
        simpl in Hall. apply andb_prop in Hall as [Hc _].
        rewrite (Hno "" c (g +:+ post)) in Hc; [discriminate|exact Hs].
      * apply IH. intros a c b Heq. apply (Hno (String x a) c b).
        rewrite PyFacts.app_cons, Heq. reflexivity.
Qed.

Lemma first_match_None (ps : list pattern) (url : string) :
  first_match ps url = None ↔ ∀ p, p ∈ ps → re_search p url = None.
Proof.
  induction ps as [|p ps IH]; simpl.
  - split; [intros _ p Hp; inversion Hp|reflexivity].
  - destruct (re_search p url) as [g|] eqn:Hp.
    + split; [discriminate|]. intros H.
      rewrite (H p) in Hp by apply list_elem_of_here. discriminate.
    + rewrite IH. split.
      * intros H q [->|Hq]%elem_of_cons; [exact Hp|apply H, Hq].
      * intros H q Hq. apply H, list_elem_of_further, Hq.
Qed.

(** C7.  [extract_gdrive_file_id] tries the pattern of a [/d/] segment,
    then the one of an [id=] token, then the one of a [/file/d/] segment,
    and gives the group of the first that matches; it gives none exactly
    when none of the three matches.  The address of a Drive file gives
    [ABC123], the address of a plain picture gives none. *)
Theorem extract_gdrive_file_id_first_match (url : string) :
  extract_gdrive_file_id (PStr url) =
    match re_search (mkPattern "/d/" idchar) url with
    | Some file_id => Some file_id
    | None =>
        match re_search (mkPattern "id=" idchar) url with
        | Some file_id => Some file_id
        | None => re_search (mkPattern "/file/d/" idchar) url
        end
    end ∧
  (extract_gdrive_file_id (PStr url) = None ↔
   ∀ p, p ∈ patterns → re_search p url = None) ∧
  extract_gdrive_file_id (PStr "https://drive.google.com/file/d/ABC123/view")
    = Some "ABC123" ∧
  extract_gdrive_file_id (PStr "https://example.com/logo.png") = None.
Proof.
  assert (Hfirst : extract_gdrive_file_id (PStr url) = first_match patterns url).
  { destruct url; reflexivity. }
  split; [|split; [|split; reflexivity]].
  - rewrite Hfirst. simpl.
    destruct (re_search (mkPattern "/d/" idchar) url); [reflexivity|].
    destruct (re_search (mkPattern "id=" idchar) url); [reflexivity|].
    destruct (re_search (mkPattern "/file/d/" idchar) url); reflexivity.
  - rewrite Hfirst. apply first_match_None.
Qed.

(** ** Image mirror: which references are mirrored *)

Lemma occurs_in_refl (x : string) : occurs_in x x.
Proof. exists "", "". rewrite PyFacts.app_nil_r. reflexivity. Qed.

Lemma occurs_in_trans (x y z : string) :
  occurs_in x y → occurs_in y z → occurs_in x z.
Proof.
  intros (a & b & ->) (c & d & ->). exists (c +:+ a), (b +:+ d).
  rewrite !PyFacts.app_assoc. reflexivity.
Qed.

Lemma occurs_in_empty (y : string) : occurs_in "" y.
Proof. exists "", y. reflexivity. Qed.

Lemma occurs_in_prefix (x r : string) : occurs_in x (x +:+ r).
Proof. exists "", r. reflexivity. Qed.

Lemma occurs_in_suffix (a x : string) : occurs_in x (a +:+ x).
Proof. exists a, "". rewrite PyFacts.app_nil_r. reflexivity. Qed.

Lemma take_while_occurs (f : ascii → bool) (s : string) :
  occurs_in (take_while f s) s.
Proof.
  destruct (take_while_spec f s) as (rest & Hs & _).
  rewrite Hs at 2. apply occurs_in_prefix.
Qed.

Lemma drop_occurs (n : nat) (s : string) : occurs_in (Py.drop n s) s.
Proof. rewrite <- (take_drop n s) at 2. apply occurs_in_suffix. Qed.

Lemma after_first_occurs (sep s r : string) :
  after_first sep s = Some r → occurs_in r s.
Proof.
  induction s as [|c s IH]; simpl.
  - destruct (Py.startswith sep ""); [|discriminate].
    intros [= <-]. apply drop_occurs.
  - destruct (Py.startswith sep (String c s)).
    + intros [= <-]. apply drop_occurs.
    + intros H. apply (occurs_in_trans _ s); [apply IH, H|].
      apply (occurs_in_suffix (String c "")).
Qed.

Lemma after_last_at_occurs (s : string) : occurs_in (after_last_at s) s.
Proof.
  induction s as [|c s IH]; simpl; [apply occurs_in_refl|].
  destruct (Py.contains "@" s).
  - apply (occurs_in_trans _ s); [exact IH|apply (occurs_in_suffix (String c ""))].
  - destruct (Ascii.eqb c "@"); [apply (occurs_in_suffix (String c ""))|].
    apply occurs_in_refl.
Qed.

Lemma url_authority_occurs (url : string) : occurs_in (url_authority url) url.
Proof.
  unfold url_authority.
  assert (Hrest : ∀ r, Py.startswith "//" r = true → occurs_in r url →
            occurs_in (take_while (λ c, negb (ends_authority c)) (Py.drop 2 r)) url).
  { intros r _ Hr. eapply occurs_in_trans; [apply take_while_occurs|].
    eapply occurs_in_trans; [apply drop_occurs|exact Hr]. }
  destruct (Py.startswith "//" url) eqn:Hs.
  - rewrite Hs. apply Hrest; [exact Hs|apply occurs_in_refl].
  - destruct (after_first ":" url) as [r|] eqn:Hr; [|apply occurs_in_empty].
    destruct (Py.startswith "//" r) eqn:Hs'; [|apply occurs_in_empty].
    apply Hrest; [exact Hs'|]. apply (after_first_occurs _ _ _ Hr).
Qed.

(** The host of a URL is part of its text. *)
Lemma url_host_occurs (url : string) : occurs_in (url_host url) url.
Proof.
  unfold url_host. eapply occurs_in_trans; [apply take_while_occurs|].
  eapply occurs_in_trans; [apply after_last_at_occurs|apply url_authority_occurs].
Qed.

Lemma host_matches_occurs (host : string) :
  host_matches host = true →
  occurs_in "drive.google.com" (lower host)
  ∨ occurs_in "googleusercontent.com" (lower host).
Proof.
  unfold host_matches, image_hosts. simpl List.existsb. rewrite orb_false_r.
  intros [[Hd|Hd]%orb_prop | [Hd|Hd]%orb_prop]%orb_prop.
  - left. apply String.eqb_eq in Hd as ->. apply occurs_in_refl.
  - left. apply PyFacts.endswith_spec in Hd as [k ->].
    rewrite <- PyFacts.app_assoc. apply occurs_in_suffix.
  - right. apply String.eqb_eq in Hd as ->. apply occurs_in_refl.
  - right. apply PyFacts.endswith_spec in Hd as [k ->].
    rewrite <- PyFacts.app_assoc. apply occurs_in_suffix.
Qed.

Lemma is_gdrive_url_str (u : string) :
  is_gdrive_url (PStr u) =
  Py.contains "drive.google.com" u || Py.contains "googleusercontent.com" u.
Proof. destruct u; reflexivity. Qed.

(** C5, as the code has it.  [is_gdrive_url] is true exactly for the
    strings that hold [drive.google.com] or [googleusercontent.com], in
    these small letters, somewhere in their text.  The URLs whose host is
    one of the two domains, or lies under one, and is written in small
    letters are among them; a URL that writes such a host in capital
    letters and names the domain nowhere else is not. *)
Theorem is_gdrive_url_occurrence (url : pyval) :
  (is_gdrive_url url = true ↔
   ∃ u, url = PStr u ∧
        (occurs_in "drive.google.com" u ∨ occurs_in "googleusercontent.com" u)) ∧
  (∀ u, url = PStr u → host_matches (url_host u) = true →
        in_small_letters (url_host u) → is_gdrive_url url = true) ∧
  (host_matches (url_host "https://DRIVE.GOOGLE.COM/file/d/ABC/view") = true ∧
   is_gdrive_url (PStr "https://DRIVE.GOOGLE.COM/file/d/ABC/view") = false).
Proof.
  assert (Hiff : ∀ u, is_gdrive_url (PStr u) = true ↔
            occurs_in "drive.google.com" u ∨ occurs_in "googleusercontent.com" u).
  { intros u. rewrite is_gdrive_url_str, orb_true_iff, !PyFacts.contains_spec.
    reflexivity. }
  split; [|split].
  - destruct url as [|u].
    + split; [discriminate|]. intros (u & [=] & _).
    + rewrite Hiff. split; [intros H; exists u; auto|].
      intros (u' & [= <-] & H). exact H.
  - intros u -> Hhost Hsmall. apply Hiff.
    destruct (host_matches_occurs _ Hhost) as [H|H]; rewrite Hsmall in H;
      [left|right]; apply (occurs_in_trans _ _ _ H), url_host_occurs.
  - split; vm_compute; reflexivity.
Qed.

(** C5 as stated fails, both ways: a URL of another host that names the
    domain in its query is taken for a reference to the image host, and a
    URL that writes the host in capital letters is not. *)
Lemma is_gdrive_url_not_by_host :
  ¬ (∀ url : string,
       is_gdrive_url (PStr url) = true ↔ host_matches (url_host url) = true) ∧
  ¬ (∀ url : string,
       host_matches (url_host url) = true → is_gdrive_url (PStr url) = true) ∧
  ¬ (∀ url : string,
       host_matches (url_host url) = false → is_gdrive_url (PStr url) = false).
Proof.
  split; [|split].
  - intros H.
    destruct (H "https://example.com/?ref=drive.google.com") as [Hhost _].
    specialize (Hhost eq_refl). vm_compute in Hhost. discriminate.
  - intros H.
    specialize (H "https://DRIVE.GOOGLE.COM/file/d/ABC/view" eq_refl).
    vm_compute in H. discriminate.
  - intros H.
    specialize (H "https://example.com/?ref=drive.google.com" eq_refl).
    vm_compute in H. discriminate.
Qed.

(** The match [re_search] gives is the leftmost: the pattern matches at the
    start of no later-starting part of what stands before it. *)
Lemma re_search_leftmost (p : pattern) (s g : string) :
  re_search p s = Some g →
  ∃ pre rest, s = pre +:+ rest ∧ match_here p rest = Some g ∧
    ∀ a b, pre = a +:+ b → b ≠ "" → match_here p (b +:+ rest) = None.
Proof.
  induction s as [|c s IH]; rewrite re_search_unfold.
  - destruct (match_here p "") eqn:Hm; [|discriminate]. intros [= ->].
    exists "", "". repeat split; [exact Hm|].
    intros [|? ?] [|? ?]; try discriminate. congruence.
  - destruct (match_here p (String c s)) eqn:Hm.
    + intros [= ->]. exists "", (String c s). repeat split; [exact Hm|].
      intros [|? ?] [|? ?]; try discriminate. congruence.
    + intros (pre & rest & -> & Hrest & Hleft)%IH.
      exists (String c pre), rest. repeat split; [exact Hrest|].
      intros [|x a] b Hab Hb.
      * rewrite PyFacts.app_nil_l in Hab. subst b. exact Hm.
      * rewrite PyFacts.app_cons in Hab. injection Hab as _ Hab.
        apply (Hleft a b Hab Hb).
Qed.

(** The bullets are the trimmed pieces that are not empty. *)
Lemma strip_nonempty_spec (pieces : list string) (b : string) :
  b ∈ strip_nonempty pieces ↔ ∃ x, x ∈ pieces ∧ b = Py.strip x ∧ b ≠ "".
Proof.
  unfold strip_nonempty. rewrite list_elem_of_In, in_map_iff. split.
  - intros (x & <- & [Hx Hne]%filter_In). exists x.
    rewrite list_elem_of_In. repeat split; [exact Hx|].
    apply PyFacts.nonempty_true, Hne.
  - intros (x & Hx%list_elem_of_In & -> & Hne). exists x.
    split; [reflexivity|]. apply filter_In. split; [exact Hx|].
    apply PyFacts.nonempty_true, Hne.
Qed.

(** ** Image mirror: resolving a reference *)

(** An identifier, when there is one, is not empty. *)
Lemma extract_gdrive_file_id_nonempty (url : pyval) (file_id : string) :
  extract_gdrive_file_id url = Some file_id → Py.nonempty file_id = true.
Proof.
  assert (Hfirst : ∀ ps u, first_match ps u = Some file_id →
            Py.nonempty file_id = true).
  { intros ps u. induction ps as [|p ps IH]; simpl; [discriminate|].
    destruct (re_search p u) as [g|] eqn:Hp; [|exact IH].
    intros [= ->]. apply re_search_Some in Hp as (_ & _ & _ & Hne & _).
    apply PyFacts.nonempty_true, Hne. }
  destruct url as [|u]; [discriminate|]. unfold extract_gdrive_file_id.
  destruct (Py.nonempty u); [apply Hfirst|discriminate].
Qed.

Lemma names_image_host_spec (u : string) :
  is_gdrive_url (PStr u) = true ↔ names_image_host u.
Proof.
  unfold names_image_host.
  rewrite is_gdrive_url_str, orb_true_iff, !PyFacts.contains_spec.
  reflexivity.
Qed.

(** The download once the identifier is known. *)
Lemma download_image_from_gdrive_found (url : pyval) (fn file_id : string)
    (w : World) :
  extract_gdrive_file_id url = Some file_id →
  download_image_from_gdrive url fn w =
  let src := download_url_of file_id in
  let dst := path_join "images" fn in
  if makedirs_ok w "images"
  then (Done (retrieves w src dst),
        log (UrlRetrieve src dst) (log (MakeDirs "images") w))
  else (OSError, log (MakeDirs "images") w).
Proof.
  intros Hid. unfold download_image_from_gdrive.
  rewrite Hid, (extract_gdrive_file_id_nonempty _ _ Hid). simpl negb.
  cbv iota zeta. fold (download_url_of file_id).
  unfold log at 1 4. simpl makedirs_ok. simpl retrieves.
  destruct (makedirs_ok w "images"); [|reflexivity].
  destruct (retrieves w (download_url_of file_id) (path_join "images" fn));
    reflexivity.
Qed.

(** C4, as the code has it.  [process_image_url] gives [''] for an empty
    reference; gives back a reference that starts with [images/], the
    outside untouched; on a reference that names one of the two domains
    somewhere in its text gives [''] when no identifier is found, and,
    when one is found and the folder can be made, [images/<default_filename>]
    when the retrieval succeeds and [''] when it fails; and gives back
    every other reference, the outside untouched. *)
Theorem process_image_url_cases (url : pyval) (default_filename : string)
    (w : World) :
  let r := process_image_url url default_filename w in
  (truthy url = false → r = (Done "", w)) ∧
  (∀ u, url = PStr u → Py.startswith "images/" u = true → r = (Done u, w)) ∧
  (∀ u, url = PStr u → u ≠ "" → Py.startswith "images/" u = false →
     names_image_host u →
     match extract_gdrive_file_id url with
     | None => r = (Done "", w)
     | Some file_id =>
         makedirs_ok w "images" = true →
         let src := download_url_of file_id in
         let dst := path_join "images" default_filename in
         r.1 = Done (if retrieves w src dst
                     then "images/" +:+ default_filename else "") ∧
         makedirs_ok r.2 = makedirs_ok w ∧
         retrieves r.2 = retrieves w ∧
         events r.2 = events w ++ [MakeDirs "images"; UrlRetrieve src dst]
     end) ∧
  (∀ u, url = PStr u → u ≠ "" → Py.startswith "images/" u = false →
     ¬ names_image_host u → r = (Done u, w)).
Proof.
  cbv zeta. unfold process_image_url. repeat split.
  - destruct url as [|u]; [reflexivity|]. simpl. intros ->. reflexivity.
  - intros u -> Hloc. destruct u as [|c u]; [discriminate|].
    simpl negb. cbv iota. rewrite Hloc. reflexivity.
  - intros u -> Hu%PyFacts.nonempty_true Hloc Hext%names_image_host_spec.
    rewrite Hu, Hloc, Hext. simpl negb. cbv iota.
    destruct (extract_gdrive_file_id (PStr u)) as [file_id|] eqn:Hid.
    + intros Hdir.
      rewrite (download_image_from_gdrive_found _ _ _ _ Hid). cbv zeta.
      rewrite Hdir.
      destruct (retrieves w (download_url_of file_id)
                  (path_join "images" default_filename));
        (split; [reflexivity|split; [reflexivity|split; [reflexivity|]]]);
        simpl; rewrite <- app_assoc; reflexivity.
    + unfold download_image_from_gdrive. rewrite Hid. reflexivity.
  - intros u -> Hu%PyFacts.nonempty_true Hloc Hext.
    assert (Hno : is_gdrive_url (PStr u) = false).
    { destruct (is_gdrive_url (PStr u)) eqn:H; [|reflexivity].
      apply names_image_host_spec in H. contradiction. }
    rewrite Hu, Hloc, Hno. reflexivity.
Qed.

(** C4 as stated fails: a URL of another host that names the image host in
    its query is not given back as it is, but mirrored from the identifier
    its path happens to hold. *)
Lemma process_image_url_not_by_host :
  ¬ (∀ (u default_filename : string) (w : World),
       u ≠ "" → Py.startswith "images/" u = false →
       host_matches (url_host u) = false →
       process_image_url (PStr u) default_filename w = (Done u, w)).
Proof.
  intros H.
  specialize (H "https://example.com/d/photo.png?via=drive.google.com"
                "logo.png" (mkWorld (λ _, true) (λ _ _, true) [])
                ltac:(discriminate) eq_refl eq_refl).
  vm_compute in H. discriminate.
Qed.

(** X21.  The [OSError] of [os.makedirs] is not caught: when the folder
    [images] cannot be made, a reference that names one of the domains and
    holds an identifier gives no [''] but the error, after the attempt to
    make the folder and before anything is retrieved. *)
Theorem process_image_url_makedirs_fails (u default_filename file_id : string)
    (w : World) :
  Py.startswith "images/" u = false → names_image_host u →
  extract_gdrive_file_id (PStr u) = Some file_id →
  makedirs_ok w "images" = false →
  process_image_url (PStr u) default_filename w
  = (OSError, log (MakeDirs "images") w).
Proof.
  intros Hloc Hext%names_image_host_spec Hid Hdir. unfold process_image_url.
  assert (Hu : Py.nonempty u = true).
  { destruct u; [discriminate Hid|reflexivity]. }
  rewrite Hu, Hloc, Hext. simpl negb. cbv iota.
  rewrite (download_image_from_gdrive_found _ _ _ _ Hid). cbv zeta.
  rewrite Hdir. reflexivity.
Qed.

Lemma process_image_url_makedirs_fails_witness :
  let w := mkWorld (λ _, false) (λ _ _, true) [] in
  process_image_url (PStr "https://drive.google.com/file/d/ABC123/view")
    "logo.png" w
  = (OSError, log (MakeDirs "images") w).
Proof.
  intros w.
  apply (process_image_url_makedirs_fails
           "https://drive.google.com/file/d/ABC123/view" "logo.png" "ABC123" w);
    [reflexivity| |reflexivity|reflexivity].
  left. exists "https://", "/file/d/ABC123/view". reflexivity.
Defined.

(** ** Worked inputs *)

Example split_pipes : Py.split "||" "A||B||C" = ["A"; "B"; "C"].
Proof. reflexivity. Qed.

Example split_from_the_left : Py.split "||" "a|||b" = ["a"; "|b"].
Proof. reflexivity. Qed.

Example split_keeps_empty_pieces : Py.split "|" "|x|" = [""; "x"; ""].
Proof. reflexivity. Qed.

Example strip_both_sides : Py.strip "  One " = "One".
Proof. reflexivity. Qed.

Example endswith_label : Py.endswith "_label" "revenue_label" = true.
Proof. reflexivity. Qed.

(** The intro of a detail section, reflowed with the default class. *)
Example text_to_paragraphs_default :
  text_to_paragraphs (PStr "single line") default_css_class =
  paragraph_html "text-lg text-gray-200 mb-6" "single line" ∧
  text_to_paragraphs PNone default_css_class = "" ∧
  text_to_paragraphs (PStr "   ") default_css_class = "".
Proof. repeat split. Qed.

Example path_join_plain : path_join "images" "logo.png" = "images/logo.png".
Proof. reflexivity. Qed.

(** [field.replace] removes every occurrence of the suffix text, so a name
    that holds it twice loses both: the key is [a], not [a_number]. *)
Remark parse_about_removes_every_occurrence :
  parse_about [ {[ "field" := PStr "a_number_number"; "value" := PStr "1" ]} ] =
  Ok (mkAbout (PStr "") [] [mkStat "a" (PStr "1") (PStr "")]) ∧
  Py.strip_suffix "_number" "a_number_number" = "a_number".
Proof. split; vm_compute; reflexivity. Qed.

(** A blank line at the end does not count as a second segment: the text
    is then cut at its line breaks. *)
Example paragraphs_trailing_blank_line :
  paragraphs_of ("A" +:+ nl +:+ "B" +:+ nl +:+ nl) = ["A"; "B"].
Proof. reflexivity. Qed.

Example paragraphs_blank_lines :
  paragraphs_of ("A" +:+ nl +:+ "B" +:+ nl +:+ nl +:+ "C") =
  ["A" +:+ nl +:+ "B"; "C"].
Proof. reflexivity. Qed.

Example extract_id_token :
  extract_gdrive_file_id (PStr "https://drive.google.com/open?id=1a-B_c") =
  Some "1a-B_c".
Proof. reflexivity. Qed.

(** A local reference is given back, and nothing is done outside. *)
Example process_local (w : World) :
  process_image_url (PStr "images/logo.png") "logo.png" w
  = (Done "images/logo.png", w).
Proof. reflexivity. Qed.

(** A Drive reference whose retrieval succeeds is mirrored. *)
Example process_mirrored :
  let w := mkWorld (λ _, true) (λ _ _, true) [] in
  let r := process_image_url
             (PStr "https://drive.google.com/file/d/ABC123/view") "logo.png" w in
  r.1 = Done "images/logo.png" ∧
  events r.2 =
    [ MakeDirs "images";
      UrlRetrieve "https://drive.google.com/uc?export=download&id=ABC123"
                  "images/logo.png" ].
Proof. split; reflexivity. Qed.

(** A Drive reference whose retrieval fails, and one without identifier,
    give the empty reference; one whose folder cannot be made raises. *)
Example process_failed :
  (process_image_url (PStr "https://drive.google.com/file/d/ABC123/view")
     "logo.png" (mkWorld (λ _, true) (λ _ _, false) [])).1 = Done "" ∧
  (∀ w, process_image_url (PStr "https://drive.google.com/") "logo.png" w
        = (Done "", w)) ∧
  (process_image_url (PStr "https://drive.google.com/file/d/ABC123/view")
     "logo.png" (mkWorld (λ _, false) (λ _ _, true) [])).1 = OSError.
Proof. repeat split; reflexivity. Qed.

(** * Further properties of the code *)

(** ** About: errors, title and paragraphs *)

Lemma bind_ok {A B : Type} (a : A) (k : A → result B) :
  (x ← Ok a; k x) = k a.
Proof. reflexivity. Qed.

Lemma about_row_none (about : About) (row : Row) :
  field_is_none row → about_row about row = Raise AttributeError.
Proof.
  intros Hf. unfold about_row, get_or. rewrite Hf. reflexivity.
Qed.

Lemma field_not_none (row : Row) :
  ¬ field_is_none row → ∃ f, get_or row "field" (PStr "") = PStr f.
Proof.
  unfold field_is_none, get_or. intros Hf.
  destruct (row !! "field") as [[|f]|]; [congruence|eauto..].
Qed.

(** The loop of [parse_about] returns when no field is [None], and raises
    [AttributeError] at the first that is. *)
Lemma for_each_about_outcome (data : list Row) (about : About) :
  match for_each about_row data about with
  | Ok _ => Forall (λ row, ¬ field_is_none row) data
  | Raise e => e = AttributeError ∧ Exists field_is_none data
  end.
Proof.
  revert about. induction data as [|row data IH]; intros about; simpl.
  - constructor.
  - destruct (decide (field_is_none row)) as [Hn|Hn].
    + rewrite (about_row_none _ _ Hn). simpl. split; [reflexivity|].
      apply Exists_cons_hd, Hn.
    + destruct (field_not_none _ Hn) as [f Hf].
      rewrite (about_row_str _ _ _ Hf). simpl.
      match goal with |- context [for_each about_row data ?a] =>
        specialize (IH a); destruct (for_each about_row data a) end.
      * constructor; assumption.
      * destruct IH as [-> Hex]. split; [reflexivity|].
        apply Exists_cons_tl, Hex.
Qed.

(** X1.  [parse_about] returns exactly when no row has a field that is
    [None], and raises [AttributeError] exactly when some row has; it
    raises nothing else. *)
Theorem parse_about_returns_iff (data : list Row) :
  ((∃ about, parse_about data = Ok about) ↔
   Forall (λ row, ¬ field_is_none row) data) ∧
  (parse_about data = Raise AttributeError ↔ Exists field_is_none data) ∧
  parse_about data ≠ Raise KeyError.
Proof.
  unfold parse_about.
  pose proof (for_each_about_outcome data (mkAbout (PStr "") [] [])) as H.
  destruct (for_each about_row data (mkAbout (PStr "") [] [])) as [a|e].
  - repeat split; try discriminate; eauto.
    intros Hex. apply Exists_exists in Hex as (row & Hin & Hrow).
    rewrite Forall_forall in H. destruct (H row Hin Hrow).
  - destruct H as [-> Hex]. repeat split; try discriminate; eauto.
    + intros [a [=]].
    + intros Hall. apply Exists_exists in Hex as (row & Hin & Hrow).
      rewrite Forall_forall in Hall. destruct (Hall row Hin Hrow).
Qed.

Lemma default_last_cons {A : Type} (d x : A) (l : list A) :
  default d (last (x :: l)) = default x (last l).
Proof. rewrite last_cons. destruct (last l); reflexivity. Qed.

Lemma for_each_about_title_paragraphs (data : list Row) (a0 a : About) :
  for_each about_row data a0 = Ok a →
  about_title a =
    default (about_title a0) (last (value_of <$> List.filter is_title_row data)) ∧
  about_paragraphs a =
    about_paragraphs a0 ++ (value_of <$> List.filter is_paragraph_row data).
Proof.
  revert a0. induction data as [|row data IH]; intros a0; simpl.
  - intros [= <-]. rewrite app_nil_r. split; reflexivity.
  - destruct (decide (field_is_none row)) as [Hn|Hn];
      [rewrite (about_row_none _ _ Hn); discriminate|].
    destruct (field_not_none _ Hn) as [f Hf].
    rewrite (about_row_str _ _ _ Hf). cbv zeta.
    unfold is_title_row, is_paragraph_row, field_of. rewrite Hf.
    destruct (decide (f = "title")) as [->|Hne].
    + rewrite bool_decide_eq_true_2 by reflexivity.
      intros [Ht Hp]%IH. simpl in Ht, Hp. split; [|exact Hp].
      rewrite fmap_cons, default_last_cons. exact Ht.
    + rewrite bool_decide_eq_false_2 by congruence.
      destruct (Py.startswith "paragraph" f).
      * rewrite bind_ok. intros [Ht Hp]%IH. simpl in Ht, Hp. split; [exact Ht|].
        rewrite fmap_cons, Hp, <- app_assoc. reflexivity.
      * destruct (Py.endswith "_number" f);
          [rewrite bind_ok; intros [Ht Hp]%IH; split; assumption|].
        destruct (Py.endswith "_label" f); rewrite bind_ok;
          intros [Ht Hp]%IH; split; assumption.
Qed.

(** X2.  When [parse_about] returns, the title is the value of the last
    row whose field is [title], and [''] when there is none; the
    paragraphs are the values of the rows whose field starts with
    [paragraph], in the order of the rows. *)
Theorem parse_about_title_paragraphs (data : list Row) (about : About)
    (Hok : parse_about data = Ok about) :
  about_title about =
    default (PStr "") (last (value_of <$> List.filter is_title_row data)) ∧
  about_paragraphs about = value_of <$> List.filter is_paragraph_row data.
Proof.
  apply for_each_about_title_paragraphs in Hok. exact Hok.
Qed.

(** X2 on a sheet with two titles and two paragraphs around a stat. *)
Lemma parse_about_title_paragraphs_witness :
  let data : list Row :=
    [ {[ "field" := PStr "title"; "value" := PStr "Old" ]};
      {[ "field" := PStr "paragraph2"; "value" := PStr "B" ]};
      {[ "field" := PStr "years_number"; "value" := PStr "9" ]};
      {[ "field" := PStr "title"; "value" := PStr "New" ]};
      {[ "field" := PStr "paragraph1"; "value" := PStr "A" ]} ] in
  let about := mkAbout (PStr "New") [PStr "B"; PStr "A"]
                       [mkStat "years" (PStr "9") (PStr "")] in
  parse_about data = Ok about ∧
  about_title about = PStr "New" ∧
  about_paragraphs about = [PStr "B"; PStr "A"].
Proof.
  intros data about.
  assert (Hok : parse_about data = Ok about) by (vm_compute; reflexivity).
  split; [exact Hok|].
  exact (parse_about_title_paragraphs data about Hok).
Defined.

(** ** Parsers over joined sheets *)

Lemma parse_core_values_map (data : list Row) :
  parse_core_values data =
  Ok (List.map core_value_of (List.filter has_icon_and_title data)).
Proof.
  unfold parse_core_values.
  rewrite (for_each_pure core_value_row
             (λ values row, if has_icon_and_title row
                            then values ++ [core_value_of row] else values)).
  - rewrite fold_left_append. reflexivity.
  - intros values row. unfold core_value_row, has_icon_and_title.
    destruct (truthy (get row "icon") && truthy (get row "title")); reflexivity.
Qed.

Lemma parse_services_map (data : list Row) :
  parse_services data = Ok (List.map service_of (List.filter has_name data)).
Proof.
  unfold parse_services.
  rewrite (for_each_pure service_row
             (λ services row, if has_name row
                              then services ++ [service_of row] else services)).
  - rewrite fold_left_append. reflexivity.
  - intros services row. unfold service_row, has_name.
    destruct (truthy (get row "name")); reflexivity.
Qed.

(** X3.  The three list parsers go through a sheet row by row and keep no
    memory of earlier rows: the records of two sheets put one behind the
    other are the records of the first followed by those of the second. *)
Theorem list_parsers_app (d1 d2 : list Row) :
  (∃ l1 l2, parse_core_values d1 = Ok l1 ∧ parse_core_values d2 = Ok l2 ∧
            parse_core_values (d1 ++ d2) = Ok (l1 ++ l2)) ∧
  (∃ l1 l2, parse_services d1 = Ok l1 ∧ parse_services d2 = Ok l2 ∧
            parse_services (d1 ++ d2) = Ok (l1 ++ l2)) ∧
  (∃ l1 l2, parse_service_details d1 = Ok l1 ∧ parse_service_details d2 = Ok l2 ∧
            parse_service_details (d1 ++ d2) = Ok (l1 ++ l2)).
Proof.
  repeat split; eexists; eexists.
  - rewrite !parse_core_values_map, List.filter_app, List.map_app. eauto.
  - rewrite !parse_services_map, List.filter_app, List.map_app. eauto.
  - rewrite !parse_service_details_map, List.filter_app, List.map_app. eauto.
Qed.

(** X4.  For the flat parsers a second sheet writes over the first: the
    map of two sheets put one behind the other is the map of the second,
    completed by the entries of the first under the keys the second does
    not name. *)
Theorem flat_parsers_app (d1 d2 : list Row) :
  ∃ m1 m2 : gmap pyval pyval,
    parse_general_info d1 = Ok m1 ∧ parse_general_info d2 = Ok m2 ∧
    parse_general_info (d1 ++ d2) = Ok (m2 ∪ m1) ∧
    parse_hero (d1 ++ d2) = Ok (m2 ∪ m1) ∧
    parse_contact (d1 ++ d2) = Ok (m2 ∪ m1) ∧
    (∀ k, (m2 ∪ m1) !! k =
          match m2 !! k with Some v => Some v | None => m1 !! k end).
Proof.
  exists (fold_left flat_put d1 ∅), (fold_left flat_put d2 ∅).
  unfold parse_general_info, parse_hero, parse_contact.
  rewrite !flat_parse_fold, fold_left_app.
  rewrite (flat_fold_union d2 (fold_left flat_put d1 ∅)).
  repeat split; try reflexivity. intros k. rewrite lookup_union.
  destruct (fold_left flat_put d2 ∅ !! k), (fold_left flat_put d1 ∅ !! k);
    reflexivity.
Qed.

(** ** Core values and services: the records *)

Lemma Forall2_map_filter {A B : Type} (keep : A → bool) (g : A → B)
    (R : A → B → Prop) (l : list A) :
  (∀ x, keep x = true → R x (g x)) →
  Forall2 R (List.filter keep l) (List.map g (List.filter keep l)).
Proof.
  intros HR. induction l as [|x l IH]; simpl; [constructor|].
  destruct (keep x) eqn:Hx; [|exact IH].
  simpl. constructor; [apply HR, Hx|exact IH].
Qed.

(** X5.  [parse_core_values] gives one record for every row with a
    non-empty icon and a non-empty title, in the order of the rows.  The
    icon and the title of a record are the ones of its row, so the default
    icon is never put in; the description and the gradient are the cells
    of the row, and [''] and the default gradient only where the row has
    no such cell. *)
Theorem parse_core_values_records (data : list Row) :
  ∃ values,
    parse_core_values data = Ok values ∧
    Forall2 (λ row v,
               cv_icon v = get row "icon" ∧ truthy (cv_icon v) = true ∧
               cv_title v = get row "title" ∧ truthy (cv_title v) = true ∧
               cv_description v = default (PStr "") (row !! "description") ∧
               cv_gradient v = default (PStr default_gradient) (row !! "gradient"))
            (List.filter (λ row, truthy (get row "icon") && truthy (get row "title"))
                         data)
            values.
Proof.
  eexists. split; [apply parse_core_values_map|].
  apply (Forall2_map_filter has_icon_and_title).
  intros row [Hi Ht]%andb_prop. simpl.
  rewrite (get_or_truthy _ _ _ Hi), (get_or_truthy _ _ _ Ht).
  repeat split; assumption.
Qed.

(** X6.  [parse_services] gives one record for every row with a non-empty
    name, in the order of the rows; the name is the one of the row, the
    link and the gradient are the cells of the row, and [''] and the
    default gradient only where the row has no such cell. *)
Theorem parse_services_records (data : list Row) :
  ∃ services,
    parse_services data = Ok services ∧
    Forall2 (λ row s,
               svc_name s = get row "name" ∧ truthy (svc_name s) = true ∧
               svc_link_id s = default (PStr "") (row !! "link_id") ∧
               svc_gradient s = default (PStr default_gradient) (row !! "gradient"))
            (List.filter (λ row, truthy (get row "name")) data)
            services.
Proof.
  eexists. split; [apply parse_services_map|].
  apply (Forall2_map_filter has_name).
  intros row Hn. unfold has_name in Hn. simpl.
  rewrite (get_or_truthy _ _ _ Hn). repeat split; assumption.
Qed.

(** ** Trimming and cutting *)

Lemma rstrip_keeps_start (s : string) :
  stops Py.isspace s = true → stops Py.isspace (Py.rstrip s) = true.
Proof.
  destruct s as [|c s]; [reflexivity|]. simpl. intros Hc.
  destruct (Py.rstrip s); [|exact Hc].
  apply negb_true_iff in Hc. rewrite Hc. simpl. rewrite Hc. reflexivity.
Qed.

(** What [strip] gives has no white space at either end. *)
Lemma strip_trimmed (s : string) : trimmed (Py.strip s).
Proof.
  unfold Py.strip. split.
  - apply rstrip_keeps_start.
    destruct (PyFacts.lstrip_spec s) as (_ & _ & _ & H). exact H.
  - destruct (PyFacts.rstrip_spec (Py.lstrip s)) as (_ & _ & _ & H). exact H.
Qed.

(** What [strip] gives is the text without white space in front and
    behind. *)
Lemma strip_spec (s : string) :
  ∃ front back, s = front +:+ Py.strip s +:+ back ∧
    all_chars Py.isspace front = true ∧ all_chars Py.isspace back = true.
Proof.
  destruct (PyFacts.lstrip_spec s) as (front & Hs & Hfront & _).
  destruct (PyFacts.rstrip_spec (Py.lstrip s)) as (back & Hl & Hback & _).
  exists front, back. unfold Py.strip. rewrite <- Hl. auto.
Qed.

Lemma strip_occurs (s : string) : occurs_in (Py.strip s) s.
Proof. destruct (strip_spec s) as (front & back & Hs & _). exists front, back. exact Hs. Qed.

Lemma all_chars_app (f : ascii → bool) (s t : string) :
  all_chars f (s +:+ t) = all_chars f s && all_chars f t.
Proof.
  induction s as [|c s IH]; [reflexivity|].
  rewrite PyFacts.app_cons. simpl. rewrite IH, andb_assoc. reflexivity.
Qed.

Lemma lstrip_all_space (s : string) :
  all_chars Py.isspace s = true → Py.lstrip s = "".
Proof.
  induction s as [|c s IH]; [reflexivity|]. simpl.
  intros [Hc Hs]%andb_prop. rewrite Hc. apply IH, Hs.
Qed.

(** A text trims to nothing exactly when it is all white space. *)
Lemma strip_empty_iff (s : string) :
  Py.strip s = "" ↔ all_chars Py.isspace s = true.
Proof.
  split.
  - intros He. destruct (strip_spec s) as (front & back & Hs & Hf & Hb).
    rewrite He, PyFacts.app_nil_l in Hs. rewrite Hs, all_chars_app, Hf, Hb.
    reflexivity.
  - intros Hs. unfold Py.strip. rewrite (lstrip_all_space _ Hs). reflexivity.
Qed.

Lemma contains_occurs (sep x y : string) :
  occurs_in x y → Py.contains sep x = true → Py.contains sep y = true.
Proof.
  intros Hxy Hx. apply PyFacts.contains_spec.
  apply PyFacts.contains_spec in Hx.
  exact (occurs_in_trans _ _ _ Hx Hxy).
Qed.

Lemma all_chars_drop (f : ascii → bool) (n : nat) (s : string) :
  all_chars f s = true → all_chars f (Py.drop n s) = true.
Proof.
  revert s. induction n as [|n IH]; intros [|c s]; simpl; try (intros; assumption).
  intros [_ Hs]%andb_prop. apply IH, Hs.
Qed.

(** The pieces of a text whose characters all pass a test pass it too. *)
Lemma all_chars_split (f : ascii → bool) (sep s : string) :
  sep ≠ "" → all_chars f s = true →
  Forall (λ piece, all_chars f piece = true) (Py.split sep s).
Proof.
  intros Hsep. remember (String.length s) as n eqn:Hn. revert s Hn.
  induction n as [n IH] using lt_wf_ind. intros [|c s] Hn Hall.
  - repeat constructor.
  - rewrite PyFacts.split_cons by exact Hsep.
    destruct (Py.startswith sep (String c s)).
    + constructor; [reflexivity|].
      apply (IH (String.length (Py.drop (String.length sep) (String c s))));
        [|reflexivity|apply all_chars_drop, Hall].
      rewrite Hn, PyFacts.length_drop. apply PyFacts.length_pos in Hsep.
      simpl. lia.
    + simpl in Hall. apply andb_prop in Hall as [Hc Hs].
      assert (Hrec : Forall (λ piece, all_chars f piece = true) (Py.split sep s)).
      { apply (IH (String.length s)); [simpl in Hn; lia|reflexivity|exact Hs]. }
      destruct (Py.split sep s) as [|h t]; simpl.
      * repeat constructor. simpl. rewrite Hc. reflexivity.
      * apply Forall_cons in Hrec as [Hh Ht]. constructor; [|exact Ht].
        simpl. rewrite Hc, Hh. reflexivity.
Qed.

(** A text without the separator is its own single piece. *)
Lemma split_no_sep (sep s : string) :
  sep ≠ "" → Py.contains sep s = false → Py.split sep s = [s].
Proof.
  intros Hsep. induction s as [|c s IH]; [reflexivity|].
  rewrite PyFacts.contains_cons. intros [Hhere Hrest]%orb_false_elim.
  rewrite PyFacts.split_cons, Hhere, (IH Hrest) by exact Hsep. reflexivity.
Qed.

Lemma join_elem_occurs (sep x : string) (l : list string) :
  x ∈ l → occurs_in x (Py.join sep l).
Proof.
  induction l as [|y l IH]; [intros H; inversion H|].
  intros [->|Hx]%elem_of_cons.
  - destruct l as [|z l]; [apply occurs_in_refl|].
    rewrite PyFacts.join_cons_cons. apply occurs_in_prefix.
  - destruct l as [|z l]; [inversion Hx|].
    rewrite PyFacts.join_cons_cons.
    apply (occurs_in_trans _ _ _ (IH Hx)).
    rewrite <- PyFacts.app_assoc. apply occurs_in_suffix.
Qed.

(** Every piece of a split is a part of the text. *)
Lemma split_occurs (sep s piece : string) :
  sep ≠ "" → piece ∈ Py.split sep s → occurs_in piece s.
Proof.
  intros Hsep Hin. pose proof (join_elem_occurs sep piece _ Hin) as H.
  rewrite (PyFacts.join_split sep s Hsep) in H. exact H.
Qed.

Lemma strip_nonempty_filter (pieces : list string) :
  List.filter Py.nonempty (strip_nonempty pieces) = strip_nonempty pieces.
Proof.
  unfold strip_nonempty. induction pieces as [|x l IH]; [reflexivity|]. simpl.
  destruct (Py.nonempty (Py.strip x)) eqn:Hx; [|exact IH].
  simpl. rewrite Hx, IH. reflexivity.
Qed.

Lemma strip_nonempty_nil (pieces : list string) :
  strip_nonempty pieces = [] ↔ Forall (λ piece, Py.strip piece = "") pieces.
Proof.
  unfold strip_nonempty. induction pieces as [|x l IH]; simpl.
  - split; [constructor|reflexivity].
  - destruct (Py.nonempty (Py.strip x)) eqn:Hx; simpl.
    + split; [discriminate|]. intros [He _]%Forall_cons.
      rewrite He in Hx. discriminate.
    + rewrite IH, Forall_cons. apply PyFacts.nonempty_false in Hx. tauto.
Qed.

(** X7.  No bullet of a service detail is empty, none holds a [|], and
    none starts or ends with white space. *)
Theorem bullets_clean (data : list Row) :
  ∃ details,
    parse_service_details data = Ok details ∧
    Forall (λ d, Forall (λ b, b ≠ "" ∧ Py.contains "|" b = false ∧ trimmed b)
                        (sd_bullets d))
           details.
Proof.
  eexists. split; [apply parse_service_details_map|].
  apply Forall_forall. intros d (row & <- & _)%list_elem_of_In%in_map_iff.
  simpl. apply Forall_forall. intros b Hb. unfold bullets_of in Hb.
  destruct (get row "key_services") as [|ks]; [inversion Hb|].
  apply strip_nonempty_spec in Hb as (piece & Hpiece & -> & Hne).
  repeat split; [exact Hne| |apply strip_trimmed..].
  - destruct (Py.contains "|" (Py.strip piece)) eqn:Hc; [|reflexivity].
    apply (contains_occurs _ _ _ (strip_occurs piece)) in Hc.
    pose proof (PyFacts.split_sep_free "|" ks ltac:(discriminate)) as Hfree.
    rewrite Forall_forall in Hfree. rewrite (Hfree piece Hpiece) in Hc.
    discriminate.
Qed.

(** ** Paragraph reflow: what is rendered *)

Lemma paragraph_html_nonempty (css_class para : string) :
  paragraph_html css_class para ≠ "".
Proof. unfold paragraph_html. rewrite PyFacts.app_cons. discriminate. Qed.

Lemma join_nonempty (sep x : string) (l : list string) :
  x ≠ "" → Py.join sep (x :: l) ≠ "".
Proof.
  intros Hx. destruct l as [|y l]; [exact Hx|].
  rewrite PyFacts.join_cons_cons. destruct x as [|c x]; [congruence|].
  rewrite PyFacts.app_cons. discriminate.
Qed.

Lemma join_paragraphs_empty (css_class : string) (paragraphs : list string) :
  Py.join nl (List.map (paragraph_html css_class) paragraphs) = "" ↔
  paragraphs = [].
Proof.
  destruct paragraphs as [|p l]; [split; reflexivity|]. simpl List.map.
  split; [|discriminate]. intros H.
  apply join_nonempty in H as []. apply paragraph_html_nonempty.
Qed.

Lemma segments_blank (sep text : string) :
  sep ≠ "" → Py.strip text = "" → strip_nonempty (Py.split sep text) = [].
Proof.
  intros Hsep Hblank%strip_empty_iff. apply strip_nonempty_nil.
  apply (Forall_impl _ _ _ (all_chars_split _ sep text Hsep Hblank)).
  intros piece Hpiece. apply strip_empty_iff, Hpiece.
Qed.

Lemma nl_nonempty : nl ≠ "" ∧ nl +:+ nl ≠ "".
Proof. split; discriminate. Qed.

(** The paragraphs kept are none exactly when every piece between the
    [||] is blank. *)
Lemma paragraphs_of_none (text : string) :
  List.filter Py.nonempty (paragraphs_of text) = [] ↔
  Forall (λ piece, Py.strip piece = "") (Py.split "||" text).
Proof.
  unfold paragraphs_of. destruct (Py.contains "||" text) eqn:Hc.
  - rewrite strip_nonempty_filter. apply strip_nonempty_nil.
  - rewrite (split_no_sep "||" text) by (discriminate || exact Hc).
    rewrite Forall_singleton. destruct nl_nonempty as [Hnl Hnl2]. split.
    + intros Hnone.
      destruct (length (strip_nonempty (Py.split (nl +:+ nl) text)) <=? 1)%nat
        eqn:H2.
      * destruct (length (strip_nonempty (Py.split nl text)) <=? 1)%nat eqn:H1.
        -- simpl in Hnone. destruct (Py.nonempty (Py.strip text)) eqn:Hs;
             [discriminate|]. apply PyFacts.nonempty_false, Hs.
        -- rewrite strip_nonempty_filter in Hnone. rewrite Hnone in H1.
           discriminate.
      * rewrite strip_nonempty_filter in Hnone. rewrite Hnone in H2.
        discriminate.
    + intros Hblank.
      rewrite (segments_blank _ _ Hnl2 Hblank), (segments_blank _ _ Hnl Hblank).
      simpl. rewrite Hblank. reflexivity.
Qed.

(** Every paragraph is a part of the text, trimmed. *)
Lemma paragraphs_of_elem (text p : string) :
  p ∈ paragraphs_of text → ∃ x, occurs_in x text ∧ p = Py.strip x.
Proof.
  assert (Hseg : ∀ sep, sep ≠ "" → p ∈ strip_nonempty (Py.split sep text) →
            ∃ x, occurs_in x text ∧ p = Py.strip x).
  { intros sep Hsep (x & Hx & -> & _)%strip_nonempty_spec.
    exists x. split; [apply (split_occurs sep _ _ Hsep Hx)|reflexivity]. }
  destruct nl_nonempty as [Hnl Hnl2].
  unfold paragraphs_of. destruct (Py.contains "||" text).
  - apply Hseg. discriminate.
  - destruct (length (strip_nonempty (Py.split (nl +:+ nl) text)) <=? 1)%nat;
      [|apply Hseg, Hnl2].
    destruct (length (strip_nonempty (Py.split nl text)) <=? 1)%nat;
      [|apply Hseg, Hnl].
    intros ->%list_elem_of_singleton. exists text.
    split; [apply occurs_in_refl|reflexivity].
Qed.

(** X8.  [text_to_paragraphs] gives no markup exactly for the texts in
    which every piece between the [||] is blank: the empty text, a text of
    white space, and a text of white space and [||] alone. *)
Theorem text_to_paragraphs_empty_iff (text css_class : string) :
  text_to_paragraphs (PStr text) css_class = "" ↔
  Forall (λ piece, Py.strip piece = "") (Py.split "||" text).
Proof.
  unfold text_to_paragraphs. destruct (Py.nonempty text) eqn:Hne.
  - rewrite join_paragraphs_empty. apply paragraphs_of_none.
  - apply PyFacts.nonempty_false in Hne as ->.
    split; [intros _; repeat constructor|reflexivity].
Qed.

(** X9.  The markup of [text_to_paragraphs] is the blocks of a list of
    paragraphs, one behind the other; each of these paragraphs is not
    empty, has no white space at either end, and is a part of the text. *)
Theorem text_to_paragraphs_blocks (text css_class : string) :
  ∃ paragraphs,
    text_to_paragraphs (PStr text) css_class =
      Py.join nl (List.map (paragraph_html css_class) paragraphs) ∧
    Forall (λ p, p ≠ "" ∧ trimmed p ∧ occurs_in p text) paragraphs.
Proof.
  unfold text_to_paragraphs. destruct (Py.nonempty text).
  - eexists. split; [reflexivity|].
    apply Forall_forall. intros p [Hp Hne]%list_elem_of_In%filter_In.
    apply list_elem_of_In, paragraphs_of_elem in Hp as (x & Hx & ->).
    repeat split; [apply PyFacts.nonempty_true, Hne|apply strip_trimmed..|].
    exact (occurs_in_trans _ _ _ (strip_occurs x) Hx).
  - exists []. split; [reflexivity|constructor].
Qed.

(** ** Image mirror: more on the identifier *)

(** Where the [/file/d/] pattern matches, the [/d/] pattern matches. *)
Lemma file_d_is_d (u : string) :
  re_search (mkPattern "/d/" idchar) u = None →
  re_search (mkPattern "/file/d/" idchar) u = None.
Proof.
  intros Hd. destruct (re_search (mkPattern "/file/d/" idchar) u) as [g|] eqn:Hf;
    [|reflexivity].
  apply re_search_Some in Hf as (pre & post & Hu & Hg & Hall & _).
  destruct g as [|c g]; [congruence|]. simpl in Hall.
  apply andb_prop in Hall as [Hc _].
  assert (Hno : idchar c = false); [|congruence].
  apply (proj1 (re_search_None (mkPattern "/d/" idchar) u) Hd
           (pre +:+ "/file") c (g +:+ post)).
  rewrite Hu, PyFacts.app_assoc. reflexivity.
Qed.

Lemma extract_gdrive_file_id_str (u : string) :
  extract_gdrive_file_id (PStr u) =
  match re_search (mkPattern "/d/" idchar) u with
  | Some file_id => Some file_id
  | None => re_search (mkPattern "id=" idchar) u
  end.
Proof.
  assert (Hfirst : extract_gdrive_file_id (PStr u) = first_match patterns u).
  { destruct u; reflexivity. }
  rewrite Hfirst. simpl.
  destruct (re_search (mkPattern "/d/" idchar) u) eqn:Hd; [reflexivity|].
  destruct (re_search (mkPattern "id=" idchar) u); [reflexivity|].
  rewrite (file_d_is_d u Hd). reflexivity.
Qed.

(** X10.  The third pattern of [extract_gdrive_file_id] never decides:
    the identifier is the one behind the first [/d/] that a character of
    an identifier follows, and else the one behind the first such [id=]. *)
Theorem extract_gdrive_file_id_two_patterns (url : pyval) :
  extract_gdrive_file_id url =
  match url with
  | PNone => None
  | PStr u =>
      match re_search (mkPattern "/d/" idchar) u with
      | Some file_id => Some file_id
      | None => re_search (mkPattern "id=" idchar) u
      end
  end.
Proof. destruct url as [|u]; [reflexivity|apply extract_gdrive_file_id_str]. Qed.

(** X11.  An identifier that [extract_gdrive_file_id] gives stands in the
    URL right behind a [/d/] or an [id=]; it is not empty, is made of
    letters, digits, [_] and [-], and ends where the URL ends or goes on
    with another character.  None is given exactly when no [/d/] and no
    [id=] of the URL is followed by such a character. *)
Theorem extract_gdrive_file_id_shape (u : string) :
  (∀ file_id, extract_gdrive_file_id (PStr u) = Some file_id →
     ∃ lead pre post,
       lead ∈ ["/d/"; "id="] ∧ u = pre +:+ lead +:+ file_id +:+ post ∧
       file_id ≠ "" ∧ all_chars idchar file_id = true ∧
       stops idchar post = true) ∧
  (extract_gdrive_file_id (PStr u) = None ↔
   ∀ lead, lead ∈ ["/d/"; "id="] →
     ∀ a c b, u = a +:+ lead +:+ String c b → idchar c = false).
Proof.
  rewrite extract_gdrive_file_id_str. split.
  - intros file_id.
    destruct (re_search (mkPattern "/d/" idchar) u) as [g|] eqn:Hd.
    + intros [= ->]. apply re_search_Some in Hd as (pre & post & H).
      exists "/d/", pre, post. split; [apply list_elem_of_here|exact H].
    + intros (pre & post & H)%re_search_Some.
      exists "id=", pre, post.
      split; [apply list_elem_of_further, list_elem_of_here|exact H].
  - destruct (re_search (mkPattern "/d/" idchar) u) as [g|] eqn:Hd.
    + split; [discriminate|]. intros Hno.
      assert (re_search (mkPattern "/d/" idchar) u = None); [|congruence].
      apply re_search_None. intros a c b. apply (Hno "/d/"), list_elem_of_here.
    + rewrite re_search_None. split.
      * intros Hid lead [->|[->|H]%elem_of_cons]%elem_of_cons a c b.
        -- apply (proj1 (re_search_None _ _) Hd).
        -- apply Hid.
        -- inversion H.
      * intros Hno a c b. apply (Hno "id=").
        apply list_elem_of_further, list_elem_of_here.
Qed.

(** ** The image mirror over the parsed data *)

(** What [process_image_url] gives back is taken as it is from then on. *)
Lemma process_image_url_settled (url : pyval) (fn fn' path : string)
    (w w' : World) :
  (process_image_url url fn w).1 = Done path →
  process_image_url (PStr path) fn' w' = (Done path, w').
Proof.
  unfold process_image_url at 1. destruct url as [|u];
    [intros [= <-]; reflexivity|].
  destruct (Py.nonempty u) eqn:Hu; simpl negb; cbv iota;
    [|intros [= <-]; reflexivity].
  destruct (Py.startswith "images/" u) eqn:Hloc.
  { intros [= <-]. unfold process_image_url. rewrite Hu, Hloc. reflexivity. }
  destruct (is_gdrive_url (PStr u)) eqn:Hext.
  - destruct (download_image_from_gdrive (PStr u) fn w) as [[[|]|] w1];
      [|intros [= <-]; reflexivity|discriminate].
    intros [= <-]. unfold process_image_url.
    rewrite (PyFacts.startswith_app "images/" fn). reflexivity.
  - intros [= <-]. unfold process_image_url. rewrite Hu, Hloc, Hext.
    reflexivity.
Qed.

Lemma process_detail_settled (detail detail1 : ServiceDetail)
    (w w' : World) :
  (process_detail detail w).1 = Done detail1 →
  process_detail detail1 w' = (Done detail1, w').
Proof.
  unfold process_detail at 1.
  destruct (is_gdrive_url (sd_bg_image detail)) eqn:Hext.
  - destruct (process_image_url (sd_bg_image detail)
                (py_str (sd_service_id detail) +:+ "-bg.jpg") w)
      as [[path|] w1] eqn:Hp; [|discriminate].
    intros [= <-]. unfold process_detail. simpl sd_bg_image.
    simpl sd_service_id.
    destruct (is_gdrive_url (PStr path)); [|reflexivity].
    rewrite (process_image_url_settled (sd_bg_image detail)
               (py_str (sd_service_id detail) +:+ "-bg.jpg")
               (py_str (sd_service_id detail) +:+ "-bg.jpg") path w w')
      by (rewrite Hp; reflexivity).
    reflexivity.
  - intros [= <-]. unfold process_detail. rewrite Hext. reflexivity.
Qed.

Lemma process_details_settled (service_details details1 : list ServiceDetail)
    (w w' : World) :
  (process_details service_details w).1 = Done details1 →
  process_details details1 w' = (Done details1, w').
Proof.
  revert details1 w.
  induction service_details as [|detail rest IH]; intros details1 w;
    [intros [= <-]; reflexivity|].
  simpl process_details.
  destruct (process_detail detail w) as [[detail1|] w1] eqn:Hd;
    [|discriminate].
  destruct (process_details rest w1) as [[rest1|] w2] eqn:Hr; [|discriminate].
  intros [= <-]. simpl process_details.
  rewrite (process_detail_settled detail detail1 w w')
    by (rewrite Hd; reflexivity).
  rewrite (IH rest1 w1) by (rewrite Hr; reflexivity). reflexivity.
Qed.

Lemma process_logo_settled (general general1 : gmap pyval pyval)
    (w w' : World) :
  (process_logo general w).1 = Done general1 →
  process_logo general1 w' = (Done general1, w').
Proof.
  unfold process_logo at 1.
  destruct (general !! PStr "logo_url") as [logo_url|] eqn:Hlogo.
  - destruct (is_gdrive_url logo_url) eqn:Hext.
    + destruct (process_image_url logo_url "logo.png" w) as [[path|] w1]
        eqn:Hp; [|discriminate].
      intros [= <-]. unfold process_logo. rewrite lookup_insert_eq.
      destruct (is_gdrive_url (PStr path)); [|reflexivity].
      rewrite (process_image_url_settled logo_url "logo.png" "logo.png"
                 path w w') by (rewrite Hp; reflexivity).
      rewrite insert_insert_eq. reflexivity.
    + intros [= <-]. unfold process_logo. rewrite Hlogo, Hext. reflexivity.
  - intros [= <-]. unfold process_logo. rewrite Hlogo. reflexivity.
Qed.

(** X12.  A second pass of [process_image_url] over what a first pass gave
    back, under any file name and at any later time, gives it back
    unchanged and does nothing to the outside; it does not raise. *)
Theorem process_image_url_idempotent (url : pyval) (fn fn' path : string)
    (w w' : World) :
  (process_image_url url fn w).1 = Done path →
  process_image_url (PStr path) fn' w' = (Done path, w').
Proof. apply process_image_url_settled. Qed.

Lemma process_image_url_idempotent_witness :
  let w := mkWorld (λ _, true) (λ _ _, true) [] in
  let w' := mkWorld (λ _, false) (λ _ _, false) [MakeDirs "images"] in
  (process_image_url (PStr "https://drive.google.com/file/d/ABC123/view")
     "logo.png" w).1 = Done "images/logo.png" ∧
  process_image_url (PStr "images/logo.png") "other.png" w'
  = (Done "images/logo.png", w').
Proof.
  intros w w'.
  assert (Hfirst : (process_image_url
                      (PStr "https://drive.google.com/file/d/ABC123/view")
                      "logo.png" w).1 = Done "images/logo.png")
    by reflexivity.
  split; [exact Hfirst|].
  exact (process_image_url_idempotent _ "logo.png" "other.png" _ w w' Hfirst).
Defined.

(** X13.  [process_all_images] run again on the data a first run left
    behind changes none of it and does nothing to the outside: no
    directory is made and nothing is retrieved, so it does not raise,
    whatever the first run met. *)
Theorem process_all_images_idempotent (general general1 : gmap pyval pyval)
    (service_details details1 : list ServiceDetail) (w w' : World) :
  (process_all_images general service_details w).1
  = Done (general1, details1) →
  process_all_images general1 details1 w' = (Done (general1, details1), w').
Proof.
  unfold process_all_images at 1.
  destruct (process_logo general w) as [[g1|] w1] eqn:Hlogo; [|discriminate].
  destruct (process_details service_details w1) as [[ds1|] w2] eqn:Hdet;
    [|discriminate].
  intros [= <- <-]. unfold process_all_images.
  rewrite (process_logo_settled general g1 w w')
    by (rewrite Hlogo; reflexivity).
  rewrite (process_details_settled service_details ds1 w1 w')
    by (rewrite Hdet; reflexivity).
  reflexivity.
Qed.

Lemma process_all_images_idempotent_witness :
  let w := mkWorld (λ _, true) (λ _ _, false) [] in
  let w' := mkWorld (λ _, false) (λ _ _, true) [] in
  let detail bg :=
    mkServiceDetail (PStr "audit") (PStr "Audit") (PStr "") (PStr "") []
                    (PStr "") (PStr bg) (PStr "left") in
  (process_all_images ∅ [detail "https://drive.google.com/file/d/ABC123/view"]
     w).1 = Done (∅, [detail ""]) ∧
  process_all_images ∅ [detail ""] w' = (Done (∅, [detail ""]), w').
Proof.
  intros w w' detail.
  assert (Hfirst : (process_all_images ∅
                      [detail "https://drive.google.com/file/d/ABC123/view"]
                      w).1 = Done (∅, [detail ""])) by reflexivity.
  split; [exact Hfirst|].
  exact (process_all_images_idempotent _ _ _ _ w w' Hfirst).
Defined.

(** ** The address of a download *)

Lemma take_while_all (f : ascii → bool) (s : string) :
  all_chars f s = true → take_while f s = s.
Proof.
  induction s as [|c s IH]; [reflexivity|]. simpl.
  intros [Hc Hs]%andb_prop. rewrite Hc, (IH Hs). reflexivity.
Qed.

Lemma match_here_group (p : pattern) (g : string) :
  g ≠ "" → all_chars (cls p) g = true → match_here p (lead p +:+ g) = Some g.
Proof.
  intros Hg Hall. unfold match_here.
  rewrite PyFacts.startswith_app, PyFacts.drop_app, (take_while_all _ _ Hall).
  apply PyFacts.nonempty_true in Hg. rewrite Hg. reflexivity.
Qed.

Lemma re_search_skip (p : pattern) (c : ascii) (s : string) :
  match_here p (String c s) = None → re_search p (String c s) = re_search p s.
Proof. intros H. rewrite re_search_unfold, H. reflexivity. Qed.

(** A pattern whose literal text starts outside its class finds nothing in
    a text of the class. *)
Lemma re_search_in_class (p : pattern) (c : ascii) (l s : string) :
  lead p = String c l → cls p c = false →
  all_chars (cls p) s = true → re_search p s = None.
Proof.
  intros Hlead Hc Hall. apply re_search_None. intros a x b ->.
  rewrite Hlead, all_chars_app, PyFacts.app_cons in Hall. simpl in Hall.
  rewrite Hc, andb_false_r in Hall. discriminate.
Qed.

Lemma download_url_no_d (file_id : string) :
  all_chars idchar file_id = true →
  re_search (mkPattern "/d/" idchar) (download_url_of file_id) = None.
Proof.
  intros Hall. unfold download_url_of.
  rewrite !PyFacts.app_cons, PyFacts.app_nil_l.
  repeat (rewrite re_search_skip by reflexivity).
  apply (re_search_in_class _ "/" "d/"); [reflexivity|reflexivity|exact Hall].
Qed.

Lemma download_url_id (file_id : string) :
  file_id ≠ "" → all_chars idchar file_id = true →
  re_search (mkPattern "id=" idchar) (download_url_of file_id) = Some file_id.
Proof.
  intros Hne Hall. unfold download_url_of.
  rewrite !PyFacts.app_cons, PyFacts.app_nil_l.
  repeat (rewrite re_search_skip by reflexivity).
  rewrite re_search_unfold.
  pose proof (match_here_group (mkPattern "id=" idchar) file_id Hne Hall)
    as Hm.
  simpl lead in Hm. rewrite !PyFacts.app_cons, PyFacts.app_nil_l in Hm.
  rewrite Hm. reflexivity.
Qed.

(** X14.  Round trip of the download address: the address the mirror
    builds from an identifier is a reference [is_gdrive_url] accepts, in which
    [extract_gdrive_file_id] finds that identifier again. *)
Theorem download_url_round_trip (file_id : string) :
  file_id ≠ "" → all_chars idchar file_id = true →
  extract_gdrive_file_id (PStr (download_url_of file_id)) = Some file_id ∧
  is_gdrive_url (PStr (download_url_of file_id)) = true.
Proof.
  intros Hne Hall. split.
  - rewrite extract_gdrive_file_id_str, (download_url_no_d _ Hall).
    apply download_url_id; assumption.
  - unfold is_gdrive_url.
    assert (Hin : Py.contains "drive.google.com" (download_url_of file_id)
                  = true).
    { apply PyFacts.contains_spec.
      exists "https://", ("/uc?export=download&id=" +:+ file_id).
      unfold download_url_of. rewrite !PyFacts.app_cons, !PyFacts.app_nil_l.
      reflexivity. }
    rewrite Hin. reflexivity.
Qed.

Lemma download_url_round_trip_witness :
  extract_gdrive_file_id (PStr (download_url_of "1aB_c-9")) = Some "1aB_c-9" ∧
  is_gdrive_url (PStr (download_url_of "1aB_c-9")) = true.
Proof. apply (download_url_round_trip "1aB_c-9"); [discriminate|reflexivity]. Defined.

(** ** What the mirror does to the outside and to the data *)

Lemma extract_gdrive_file_id_class (url : pyval) (file_id : string) :
  extract_gdrive_file_id url = Some file_id → is_file_id file_id.
Proof.
  destruct url as [|u]; [discriminate|]. rewrite extract_gdrive_file_id_str.
  destruct (re_search (mkPattern "/d/" idchar) u) as [g|] eqn:Hd.
  - intros [= ->].
    apply re_search_Some in Hd as (pre & post & _ & Hne & Hall & _).
    split; assumption.
  - intros (pre & post & _ & Hne & Hall & _)%re_search_Some.
    split; assumption.
Qed.

Lemma download_url_host (file_id : string) :
  url_host (download_url_of file_id) = "drive.google.com".
Proof.
  unfold download_url_of. rewrite !PyFacts.app_cons, PyFacts.app_nil_l.
  reflexivity.
Qed.

Lemma mirror_step_mono (names names' : list string) (e : event) :
  names ⊆ names' → mirror_step names e → mirror_step names' e.
Proof.
  intros Hsub. destruct e as [path|src dst]; [exact id|].
  intros (Hid & Hhost & fn & Hfn & Hdst).
  split; [exact Hid|split; [exact Hhost|]]. exists fn. split; [|exact Hdst].
  apply Hsub, Hfn.
Qed.

Lemma goes_on_refl (names : list string) (n : nat) (w : World) :
  goes_on names n w w.
Proof.
  split; [reflexivity|]. split; [reflexivity|]. exists [].
  rewrite app_nil_r. repeat split; [constructor|simpl; lia].
Qed.

Lemma goes_on_trans (names1 names2 names : list string) (n1 n2 : nat)
    (w w1 w2 : World) :
  names1 ⊆ names → names2 ⊆ names →
  goes_on names1 n1 w w1 → goes_on names2 n2 w1 w2 →
  goes_on names (n1 + n2) w w2.
Proof.
  intros Hs1 Hs2 (Hm1 & Hr1 & done1 & He1 & Hf1 & Hl1)
         (Hm2 & Hr2 & done2 & He2 & Hf2 & Hl2).
  split; [congruence|]. split; [congruence|]. exists (done1 ++ done2).
  rewrite He2, He1, <- app_assoc. repeat split.
  - apply Forall_app. split.
    + eapply Forall_impl; [exact Hf1|]. intros e. apply mirror_step_mono, Hs1.
    + eapply Forall_impl; [exact Hf2|]. intros e. apply mirror_step_mono, Hs2.
  - rewrite length_app. lia.
Qed.

Lemma download_image_from_gdrive_outside (url : pyval) (fn : string)
    (w : World) :
  goes_on [fn] 2 w (download_image_from_gdrive url fn w).2.
Proof.
  destruct (extract_gdrive_file_id url) as [file_id|] eqn:Hid.
  - rewrite (download_image_from_gdrive_found _ _ _ _ Hid). cbv zeta.
    destruct (makedirs_ok w "images"); simpl snd.
    + split; [reflexivity|]. split; [reflexivity|].
      exists [MakeDirs "images";
              UrlRetrieve (download_url_of file_id) (path_join "images" fn)].
      split; [simpl; rewrite <- app_assoc; reflexivity|].
      split; [|simpl; lia].
      apply Forall_cons. split; [reflexivity|]. apply Forall_singleton.
      split; [|split].
      * exists file_id. split; [|reflexivity].
        exact (extract_gdrive_file_id_class _ _ Hid).
      * apply download_url_host.
      * exists fn. split; [apply list_elem_of_here|reflexivity].
    + split; [reflexivity|]. split; [reflexivity|].
      exists [MakeDirs "images"]. split; [reflexivity|].
      split; [|simpl; lia]. apply Forall_singleton. reflexivity.
  - unfold download_image_from_gdrive. rewrite Hid. apply goes_on_refl.
Qed.

Lemma process_image_url_outside (url : pyval) (fn : string) (w : World) :
  goes_on [fn] 2 w (process_image_url url fn w).2.
Proof.
  unfold process_image_url. destruct url as [|u]; [apply goes_on_refl|].
  destruct (Py.nonempty u); simpl negb; cbv iota; [|apply goes_on_refl].
  destruct (Py.startswith "images/" u); [apply goes_on_refl|].
  destruct (is_gdrive_url (PStr u)); [|apply goes_on_refl].
  pose proof (download_image_from_gdrive_outside (PStr u) fn w) as H.
  destruct (download_image_from_gdrive (PStr u) fn w) as [[[|]|] w1];
    exact H.
Qed.

Lemma process_detail_outside (detail : ServiceDetail) (w : World) :
  goes_on [bg_filename detail] 2 w (process_detail detail w).2.
Proof.
  unfold process_detail, bg_filename.
  destruct (is_gdrive_url (sd_bg_image detail)); [|apply goes_on_refl].
  pose proof (process_image_url_outside (sd_bg_image detail)
                (py_str (sd_service_id detail) +:+ "-bg.jpg") w) as H.
  destruct (process_image_url (sd_bg_image detail)
              (py_str (sd_service_id detail) +:+ "-bg.jpg") w)
    as [[path|] w1]; exact H.
Qed.

Lemma process_details_outside (service_details : list ServiceDetail)
    (w : World) :
  goes_on (List.map bg_filename service_details)
          (2 * length service_details) w
          (process_details service_details w).2.
Proof.
  revert w. induction service_details as [|detail rest IH]; intros w;
    [apply goes_on_refl|].
  assert (Hhead : [bg_filename detail]
                  ⊆ List.map bg_filename (detail :: rest)).
  { intros x [->|Hx]%elem_of_cons; [apply list_elem_of_here|inversion Hx]. }
  assert (Htail : List.map bg_filename rest
                  ⊆ List.map bg_filename (detail :: rest)).
  { intros x Hx. apply list_elem_of_further, Hx. }
  replace (2 * length (detail :: rest))%nat
    with (2 + 2 * length rest)%nat by (simpl; lia).
  simpl process_details. pose proof (process_detail_outside detail w) as Hd.
  destruct (process_detail detail w) as [[detail1|] w1]; simpl snd in Hd.
  - specialize (IH w1).
    destruct (process_details rest w1) as [[rest1|] w2]; simpl snd in *;
      exact (goes_on_trans _ _ _ _ _ _ _ _ Hhead Htail Hd IH).
  - simpl snd.
    exact (goes_on_trans _ _ _ _ _ _ _ _ Hhead Htail Hd
             (goes_on_refl _ _ w1)).
Qed.

Lemma process_logo_outside (general : gmap pyval pyval) (w : World) :
  goes_on ["logo.png"] 2 w (process_logo general w).2.
Proof.
  unfold process_logo.
  destruct (general !! PStr "logo_url") as [logo_url|]; [|apply goes_on_refl].
  destruct (is_gdrive_url logo_url); [|apply goes_on_refl].
  pose proof (process_image_url_outside logo_url "logo.png" w) as H.
  destruct (process_image_url logo_url "logo.png" w) as [[path|] w1];
    exact H.
Qed.

(** X15.  All that [process_all_images] does to the outside, also in a run
    that raises, is to make the folder [images] and to retrieve download
    addresses of well-formed identifiers, all on the host
    [drive.google.com], into the folder's paths of [logo.png] and of the
    [<service_id>-bg.jpg] of the details: at most one retrieval for the
    logo and one for each detail.  Whether a folder can be made or a
    retrieval succeeds is not changed by it. *)
Theorem process_all_images_outside (general : gmap pyval pyval)
    (service_details : list ServiceDetail) (w : World) :
  let w1 := (process_all_images general service_details w).2 in
  makedirs_ok w1 = makedirs_ok w ∧
  retrieves w1 = retrieves w ∧
  ∃ done, events w1 = events w ++ done ∧
          Forall (mirror_step (image_names service_details)) done ∧
          (length done ≤ 2 * (1 + length service_details))%nat.
Proof.
  cbv zeta.
  assert (Hhead : ["logo.png"] ⊆ image_names service_details).
  { intros x [->|Hx]%elem_of_cons; [apply list_elem_of_here|inversion Hx]. }
  assert (Htail : List.map bg_filename service_details
                  ⊆ image_names service_details).
  { intros x Hx. apply list_elem_of_further, Hx. }
  replace (2 * (1 + length service_details))%nat
    with (2 + 2 * length service_details)%nat by lia.
  change (goes_on (image_names service_details)
            (2 + 2 * length service_details) w
            (process_all_images general service_details w).2).
  unfold process_all_images.
  pose proof (process_logo_outside general w) as Hlogo.
  destruct (process_logo general w) as [[general1|] w1]; simpl snd in Hlogo.
  - pose proof (process_details_outside service_details w1) as Hdet.
    destruct (process_details service_details w1) as [[details1|] w2];
      simpl snd in *;
      exact (goes_on_trans _ _ _ _ _ _ _ _ Hhead Htail Hlogo Hdet).
  - simpl snd.
    exact (goes_on_trans _ _ _ _ _ _ _ _ Hhead Htail Hlogo
             (goes_on_refl _ _ w1)).
Qed.

Lemma process_image_url_left (url : pyval) (fn path : string) (w : World) :
  is_gdrive_url url = true →
  (process_image_url url fn w).1 = Done path →
  left_for url fn (PStr path) ∧ settled (PStr path).
Proof.
  destruct url as [|u]; [discriminate|]. intros Hext.
  unfold process_image_url.
  destruct (Py.nonempty u) eqn:Hu;
    [|simpl in Hext; rewrite Hu in Hext; discriminate].
  simpl negb. cbv iota.
  destruct (Py.startswith "images/" u) eqn:Hloc.
  { intros [= <-]. split.
    - split; [reflexivity|left; reflexivity].
    - intros _. exists u. split; [reflexivity|exact Hloc]. }
  rewrite Hext.
  destruct (download_image_from_gdrive (PStr u) fn w) as [[[|]|] w1];
    [| |discriminate]; intros [= <-].
  - split.
    + split; [congruence|right; right; reflexivity].
    + intros _. exists ("images/" +:+ fn).
      split; [reflexivity|apply PyFacts.startswith_app].
  - split.
    + split; [congruence|right; left; reflexivity].
    + intros H. discriminate H.
Qed.

Lemma process_detail_left (detail detail1 : ServiceDetail) (w : World) :
  (process_detail detail w).1 = Done detail1 →
  detail1 = set_bg_image detail (sd_bg_image detail1) ∧
  left_for (sd_bg_image detail) (bg_filename detail) (sd_bg_image detail1) ∧
  settled (sd_bg_image detail1).
Proof.
  unfold process_detail, bg_filename.
  destruct (is_gdrive_url (sd_bg_image detail)) eqn:Hext.
  - destruct (process_image_url (sd_bg_image detail)
                (py_str (sd_service_id detail) +:+ "-bg.jpg") w)
      as [[path|] w1] eqn:Hp; [|discriminate].
    intros [= <-]. simpl sd_bg_image.
    destruct (process_image_url_left (sd_bg_image detail)
                (py_str (sd_service_id detail) +:+ "-bg.jpg") path w Hext)
      as [Hleft Hset]; [rewrite Hp; reflexivity|].
    split; [reflexivity|split; assumption].
  - intros [= <-]. split; [destruct detail; reflexivity|]. split.
    + split; [reflexivity|left; reflexivity].
    + intros H. congruence.
Qed.

Lemma process_details_left (service_details details1 : list ServiceDetail)
    (w : World) :
  (process_details service_details w).1 = Done details1 →
  Forall2 (λ detail detail1,
             detail1 = set_bg_image detail (sd_bg_image detail1) ∧
             left_for (sd_bg_image detail) (bg_filename detail)
                      (sd_bg_image detail1) ∧
             settled (sd_bg_image detail1))
          service_details details1.
Proof.
  revert details1 w.
  induction service_details as [|detail rest IH]; intros details1 w;
    [intros [= <-]; constructor|].
  simpl process_details.
  destruct (process_detail detail w) as [[detail1|] w1] eqn:Hd;
    [|discriminate].
  destruct (process_details rest w1) as [[rest1|] w2] eqn:Hr; [|discriminate].
  intros [= <-]. constructor.
  - apply (process_detail_left detail detail1 w). rewrite Hd. reflexivity.
  - apply (IH rest1 w1). rewrite Hr. reflexivity.
Qed.

Lemma process_logo_left (general general1 : gmap pyval pyval) (w : World) :
  (process_logo general w).1 = Done general1 →
  (∀ k, k ≠ PStr "logo_url" → general1 !! k = general !! k) ∧
  match general !! PStr "logo_url" with
  | None => general1 !! PStr "logo_url" = None
  | Some old =>
      ∃ new, general1 !! PStr "logo_url" = Some new ∧
             left_for old "logo.png" new ∧ settled new
  end.
Proof.
  unfold process_logo.
  destruct (general !! PStr "logo_url") as [logo_url|] eqn:Hlogo.
  - destruct (is_gdrive_url logo_url) eqn:Hext.
    + destruct (process_image_url logo_url "logo.png" w) as [[path|] w1]
        eqn:Hp; [|discriminate].
      intros [= <-].
      destruct (process_image_url_left logo_url "logo.png" path w Hext)
        as [Hleft Hset]; [rewrite Hp; reflexivity|].
      split.
      * intros k Hk. apply lookup_insert_ne. congruence.
      * exists (PStr path). rewrite lookup_insert_eq.
        split; [reflexivity|split; assumption].
    + intros [= <-]. split; [reflexivity|]. exists logo_url.
      split; [exact Hlogo|]. split.
      * split; [reflexivity|left; reflexivity].
      * intros H. congruence.
  - intros [= <-]. split; [reflexivity|exact Hlogo].
Qed.

(** X16.  A run of [process_all_images] that returns keeps the data but
    for image references: the general map is the same under every key
    other than [logo_url], which it has after exactly when it had it
    before; the details are as many, in the same order, each the same but
    for [bg_image].  A reference that [is_gdrive_url] does not accept
    stays; one that it accepts stays (when it is in [images/] already), or
    becomes [''], or [images/logo.png] for the logo and
    [images/<service_id>-bg.jpg] for a detail. *)
Theorem process_all_images_frame (general general1 : gmap pyval pyval)
    (service_details details1 : list ServiceDetail) (w : World) :
  (process_all_images general service_details w).1
  = Done (general1, details1) →
  (∀ k, k ≠ PStr "logo_url" → general1 !! k = general !! k) ∧
  match general !! PStr "logo_url" with
  | None => general1 !! PStr "logo_url" = None
  | Some old => ∃ new, general1 !! PStr "logo_url" = Some new ∧
                       left_for old "logo.png" new
  end ∧
  Forall2 (λ detail detail1,
             detail1 = set_bg_image detail (sd_bg_image detail1) ∧
             left_for (sd_bg_image detail) (bg_filename detail)
                      (sd_bg_image detail1))
          service_details details1.
Proof.
  unfold process_all_images.
  destruct (process_logo general w) as [[g1|] w1] eqn:Hl; [|discriminate].
  destruct (process_details service_details w1) as [[ds1|] w2] eqn:Hd;
    [|discriminate].
  intros [= <- <-].
  destruct (process_logo_left general g1 w) as [Hframe Hlogo];
    [rewrite Hl; reflexivity|].
  pose proof (process_details_left service_details ds1 w1) as Hdet.
  rewrite Hd in Hdet. specialize (Hdet eq_refl).
  split; [exact Hframe|]. split.
  - destruct (general !! PStr "logo_url") as [old|]; [|exact Hlogo].
    destruct Hlogo as (new & Hnew & Hleft & _). exists new. split; assumption.
  - eapply Forall2_impl; [exact Hdet|]. intros d d1 (H1 & H2 & _).
    split; assumption.
Qed.

Lemma process_all_images_frame_witness :
  let w := mkWorld (λ _, true) (λ _ _, true) [] in
  let detail id bg :=
    mkServiceDetail (PStr id) (PStr "Audit") (PStr "") (PStr "") []
                    (PStr "") (PStr bg) (PStr "left") in
  let details :=
    [detail "audit" "https://drive.google.com/file/d/ABC123/view";
     detail "tax" "https://example.com/tax.jpg"] in
  let details1 :=
    [detail "audit" "images/audit-bg.jpg";
     detail "tax" "https://example.com/tax.jpg"] in
  (process_all_images ∅ details w).1 = Done (∅, details1) ∧
  Forall2 (λ d d1,
             d1 = set_bg_image d (sd_bg_image d1) ∧
             left_for (sd_bg_image d) (bg_filename d) (sd_bg_image d1))
          details details1.
Proof.
  intros w detail details details1.
  assert (Hrun : (process_all_images ∅ details w).1 = Done (∅, details1))
    by reflexivity.
  split; [exact Hrun|].
  exact (proj2 (proj2 (process_all_images_frame _ _ _ _ w Hrun))).
Defined.

(** X17.  After a run of [process_all_images] that returns, no reference
    that [is_gdrive_url] accepts is left in the logo or in a detail's
    background but one that starts with [images/]: each is local, empty,
    or a reference that names neither domain. *)
Theorem process_all_images_settles (general general1 : gmap pyval pyval)
    (service_details details1 : list ServiceDetail) (w : World) :
  (process_all_images general service_details w).1
  = Done (general1, details1) →
  (∀ v, general1 !! PStr "logo_url" = Some v → settled v) ∧
  Forall (λ detail, settled (sd_bg_image detail)) details1.
Proof.
  unfold process_all_images.
  destruct (process_logo general w) as [[g1|] w1] eqn:Hl; [|discriminate].
  destruct (process_details service_details w1) as [[ds1|] w2] eqn:Hd;
    [|discriminate].
  intros [= <- <-].
  destruct (process_logo_left general g1 w) as [_ Hlogo];
    [rewrite Hl; reflexivity|].
  pose proof (process_details_left service_details ds1 w1) as Hdet.
  rewrite Hd in Hdet. specialize (Hdet eq_refl).
  split.
  - intros v Hv. destruct (general !! PStr "logo_url") as [old|];
      [|congruence].
    destruct Hlogo as (new & Hnew & _ & Hset).
    assert (v = new) as -> by congruence. exact Hset.
  - clear Hlogo Hd. induction Hdet as [|d d1 ds ds1' (_ & _ & Hset) _ IH];
      constructor; assumption.
Qed.

Lemma process_all_images_settles_witness :
  let w := mkWorld (λ _, true) (λ _ _, true) [] in
  let detail bg :=
    mkServiceDetail (PStr "audit") (PStr "Audit") (PStr "") (PStr "") []
                    (PStr "") (PStr bg) (PStr "left") in
  (process_all_images ∅ [detail "https://drive.google.com/file/d/ABC123/view"]
     w).1 = Done (∅, [detail "images/audit-bg.jpg"]) ∧
  Forall (λ d, settled (sd_bg_image d)) [detail "images/audit-bg.jpg"].
Proof.
  intros w detail.
  assert (Hrun : (process_all_images ∅
                    [detail "https://drive.google.com/file/d/ABC123/view"]
                    w).1 = Done (∅, [detail "images/audit-bg.jpg"]))
    by reflexivity.
  split; [exact Hrun|].
  exact (proj2 (process_all_images_settles _ _ _ _ w Hrun)).
Defined.

(** ** The file a reference names *)

Lemma path_join_images (fn : string) :
  path_join "images" fn = "images/" +:+ fn ↔ Py.startswith "/" fn = false.
Proof.
  unfold path_join. destruct (Py.startswith "/" fn) eqn:Habs.
  - split; [|discriminate]. intros H. apply (f_equal String.length) in H.
    rewrite PyFacts.length_app in H. simpl in H. lia.
  - split; [reflexivity|]. intros _.
    assert (Hsep : negb (Py.nonempty "images") || Py.endswith "/" "images"
                   = false) by reflexivity.
    rewrite Hsep, !PyFacts.app_cons, !PyFacts.app_nil_l. reflexivity.
Qed.

Lemma events_not_grown (done : list event) (e1 e2 : event) :
  done = done ++ [e1; e2] → False.
Proof.
  intros H. apply (f_equal length) in H. rewrite length_app in H.
  simpl in H. lia.
Qed.

(** X18.  When [process_image_url] retrieves an image, the reference it
    gives back on success is [images/<default_filename>], and the file is
    written at [os.path.join('images', default_filename)]: the two are the
    same path exactly when the file name does not start with [/].  For a
    name that does, the file is written at that absolute path, outside the
    folder, and the reference names no file that was written. *)
Theorem process_image_url_file (url : pyval) (default_filename : string)
    (w : World) (src dst : string) :
  events (process_image_url url default_filename w).2
    = events w ++ [MakeDirs "images"; UrlRetrieve src dst] →
  (process_image_url url default_filename w).1
    = Done (if retrieves w src dst
            then "images/" +:+ default_filename else "") ∧
  dst = path_join "images" default_filename ∧
  (dst = "images/" +:+ default_filename
   ↔ Py.startswith "/" default_filename = false) ∧
  (Py.startswith "/" default_filename = true → dst = default_filename).
Proof.
  unfold process_image_url. destruct url as [|u];
    [intros []%events_not_grown|].
  destruct (Py.nonempty u); simpl negb; cbv iota;
    [|intros []%events_not_grown].
  destruct (Py.startswith "images/" u); [intros []%events_not_grown|].
  destruct (is_gdrive_url (PStr u)); [|intros []%events_not_grown].
  destruct (extract_gdrive_file_id (PStr u)) as [file_id|] eqn:Hid.
  - rewrite (download_image_from_gdrive_found _ _ _ _ Hid). cbv zeta.
    destruct (makedirs_ok w "images").
    + assert (Hev : ∀ b : bool,
                events (if b
                        then (Done ("images/" +:+ default_filename),
                              log (UrlRetrieve (download_url_of file_id)
                                     (path_join "images" default_filename))
                                  (log (MakeDirs "images") w))
                        else (Done "",
                              log (UrlRetrieve (download_url_of file_id)
                                     (path_join "images" default_filename))
                                  (log (MakeDirs "images") w))).2
                = events w ++ [MakeDirs "images";
                               UrlRetrieve (download_url_of file_id)
                                 (path_join "images" default_filename)]).
      { intros [|]; simpl; rewrite <- app_assoc; reflexivity. }
      rewrite Hev. intros [= <- <-]%app_inv_head.
      split.
      { destruct (retrieves w (download_url_of file_id)
                    (path_join "images" default_filename)); reflexivity. }
      split; [reflexivity|]. split; [apply path_join_images|].
      intros Habs. unfold path_join. rewrite Habs. reflexivity.
    + simpl. intros H%app_inv_head. discriminate H.
  - unfold download_image_from_gdrive. rewrite Hid.
    intros []%events_not_grown.
Qed.

Lemma process_image_url_file_witness :
  let w := mkWorld (λ _, true) (λ _ _, true) [] in
  let url := PStr "https://drive.google.com/file/d/ABC123/view" in
  (process_image_url url "logo.png" w).1 = Done "images/logo.png" ∧
  ("images/logo.png" = "images/logo.png" ↔ Py.startswith "/" "logo.png" = false).
Proof.
  cbv zeta.
  pose proof (process_image_url_file
                (PStr "https://drive.google.com/file/d/ABC123/view")
                "logo.png" (mkWorld (λ _, true) (λ _ _, true) [])
                (download_url_of "ABC123") "images/logo.png" eq_refl)
    as (H1 & _ & H2 & _).
  split; [exact H1|exact H2].
Defined.

(** ** The keys of the stats *)

Lemma put_entry_keys (stats : list Stat) (e : StatEntry) :
  NoDup (stat_key <$> stats) →
  NoDup (stat_key <$> put_entry stats e) ∧
  (length (put_entry stats e) ≤ S (length stats))%nat.
Proof.
  intros Hdup. rewrite put_entry_unfold.
  destruct (find_stat (e_key e) stats) as [i|] eqn:Hfind.
  - split.
    + rewrite (list_fmap_alter stat_key _ id)
        by (apply Forall_forall; intros; apply stat_key_set_part).
      rewrite list_alter_id by reflexivity. exact Hdup.
    + rewrite length_alter. lia.
  - split.
    + rewrite fmap_app. apply NoDup_app. split; [exact Hdup|]. split.
      * intros k Hk [->|Hin]%elem_of_cons; [|inversion Hin].
        rewrite stat_key_fresh in Hk.
        exact (find_stat_None _ _ Hfind Hk).
      * apply NoDup_singleton.
    + rewrite length_app. simpl. lia.
Qed.

Lemma about_row_keys (about about1 : About) (row : Row) :
  about_row about row = Ok about1 →
  NoDup (stat_key <$> about_stats about) →
  NoDup (stat_key <$> about_stats about1) ∧
  (length (about_stats about1) + length (about_paragraphs about1)
   ≤ S (length (about_stats about) + length (about_paragraphs about)))%nat.
Proof.
  destruct (decide (field_is_none row)) as [Hn|Hn];
    [rewrite (about_row_none _ _ Hn); discriminate|].
  destruct (field_not_none row Hn) as [f Hf].
  rewrite (about_row_str _ _ _ Hf). cbv zeta.
  destruct (decide (f = "title")).
  { intros [= <-] Hdup. simpl. split; [exact Hdup|lia]. }
  destruct (Py.startswith "paragraph" f).
  { intros [= <-] Hdup. simpl about_stats. simpl about_paragraphs.
    rewrite length_app. simpl. split; [exact Hdup|lia]. }
  destruct (Py.endswith "_number" f).
  { intros [= <-] Hdup. simpl about_stats. simpl about_paragraphs.
    change (put_number (Py.replace "_number" "" f)
              (get_or row "value" (PStr "")) (about_stats about))
      with (put_entry (about_stats about)
              (mkEntry (Py.replace "_number" "" f) Number
                       (get_or row "value" (PStr "")))).
    destruct (put_entry_keys (about_stats about)
                (mkEntry (Py.replace "_number" "" f) Number
                         (get_or row "value" (PStr ""))) Hdup) as [H1 H2].
    split; [exact H1|lia]. }
  destruct (Py.endswith "_label" f);
    [|intros [= <-] Hdup; split; [exact Hdup|lia]].
  intros [= <-] Hdup. simpl about_stats. simpl about_paragraphs.
  change (put_label (Py.replace "_label" "" f)
            (get_or row "value" (PStr "")) (about_stats about))
    with (put_entry (about_stats about)
            (mkEntry (Py.replace "_label" "" f) Label
                     (get_or row "value" (PStr "")))).
  destruct (put_entry_keys (about_stats about)
              (mkEntry (Py.replace "_label" "" f) Label
                       (get_or row "value" (PStr ""))) Hdup) as [H1 H2].
  split; [exact H1|lia].
Qed.

Lemma for_each_about_keys (data : list Row) (about about1 : About) :
  for_each about_row data about = Ok about1 →
  NoDup (stat_key <$> about_stats about) →
  NoDup (stat_key <$> about_stats about1) ∧
  (length (about_stats about1) + length (about_paragraphs about1)
   ≤ length data + (length (about_stats about)
                    + length (about_paragraphs about)))%nat.
Proof.
  revert about. induction data as [|row data IH]; intros about; simpl.
  - intros [= <-] Hdup. split; [exact Hdup|lia].
  - destruct (about_row about row) as [a1|e] eqn:Hrow; [|discriminate].
    simpl. intros Hrest Hdup.
    destruct (about_row_keys _ _ _ Hrow Hdup) as [Hdup1 Hlen1].
    destruct (IH a1 Hrest Hdup1) as [Hdup2 Hlen2].
    split; [exact Hdup2|lia].
Qed.

(** X19.  Whatever the field names are, the stats that [parse_about]
    returns have pairwise different keys, and there are no more stats and
    paragraphs together than there are rows: a row adds at most one
    paragraph or one stat. *)
Theorem parse_about_stat_keys (data : list Row) (about : About) :
  parse_about data = Ok about →
  NoDup (stat_key <$> about_stats about) ∧
  (length (about_stats about) + length (about_paragraphs about)
   ≤ length data)%nat.
Proof.
  intros Hparse.
  destruct (for_each_about_keys data (mkAbout (PStr "") [] []) about Hparse)
    as [Hdup Hlen]; [apply NoDup_nil_2|].
  split; [exact Hdup|]. simpl in Hlen. lia.
Qed.

Lemma parse_about_stat_keys_witness :
  let data : list Row :=
    [ {[ "field" := PStr "a_number_number"; "value" := PStr "5" ]};
      {[ "field" := PStr "a_label"; "value" := PStr "Clients" ]} ] in
  let about := mkAbout (PStr "") []
                       [mkStat "a" (PStr "5") (PStr "Clients")] in
  parse_about data = Ok about ∧
  NoDup (stat_key <$> about_stats about) ∧
  (length (about_stats about) + length (about_paragraphs about)
   ≤ length data)%nat.
Proof.
  intros data about.
  assert (Hok : parse_about data = Ok about) by (vm_compute; reflexivity).
  split; [exact Hok|].
  exact (parse_about_stat_keys data about Hok).
Defined.

(** ** The two sides of a detail section *)

(** X20.  [generate_service_detail_section] puts in exactly one spacer
    cell for the positions [left] (in front of the text, with the mask to
    the right) and [right] (behind the text, with the mask to the left).
    For every other position, the blank one among them, it takes the mask
    of [right] but puts in no spacer cell at all, neither in front of the
    text nor behind it. *)
Theorem spacer_for_two_sides_only (image_position : pyval) :
  let '(mask_gradient, grid_order) := service_detail_layout image_position in
  (image_position = PStr "left" →
     mask_gradient = mask_to_right ∧
     Py.contains spacer_div grid_order = true ∧
     trailing_spacer image_position = "") ∧
  (image_position = PStr "right" →
     mask_gradient = mask_to_left ∧
     Py.contains spacer_div grid_order = false ∧
     Py.contains spacer_div (trailing_spacer image_position) = true) ∧
  (image_position ≠ PStr "left" → image_position ≠ PStr "right" →
     mask_gradient = mask_to_left ∧
     Py.contains spacer_div grid_order = false ∧
     trailing_spacer image_position = "").
Proof.
  unfold service_detail_layout, trailing_spacer.
  destruct (decide (image_position = PStr "left")) as [->|Hleft].
  - split; [|split]; [|discriminate|congruence].
    intros _. split; [reflexivity|]. split; vm_compute; reflexivity.
  - destruct (decide (image_position = PStr "right")) as [->|Hright].
    + split; [discriminate|]. split; [|congruence].
      intros _. split; [reflexivity|]. split; vm_compute; reflexivity.
    + split; [congruence|]. split; [congruence|].
      intros _ _. split; [reflexivity|]. split; vm_compute; reflexivity.
Qed.
